(** * Facebook Ads MCP server: cache-before-semaphore admission core

    A shallow embedding of the tool handlers of [src/server.ts] (OAuth
    path) and [src/api-key-handler.ts] (API-key path), together with the
    result cache ([./apify-cache]) and the global admission controller
    ([ApifySemaphore]) they call.  The two collaborators' source files are
    not part of the snapshot; their definitions below are modelled from the
    specification and say so in their doc comments. *)

From Stdlib Require Import String Ascii ZArith List Bool Lia.
From Stdlib Require Import Permutation Sorting.Sorted.
From Stdlib Require Import Structures.OrderedTypeEx.
From Stdlib Require Import Numbers.DecimalString.
Import ListNotations.

Open Scope string_scope.
Open Scope Z_scope.
Set Warnings "-register-all".

(** ** JSON values

    Apify items, actor inputs and cached payloads are plain JSON objects in
    the source; objects keep their field order (it is what
    [JSON.stringify] prints).  An object of [JSON.parse] has distinct keys
    (the last of repeated keys wins), and the objects considered here are
    such objects. *)

Inductive json : Type :=
| JNull
| JBool (b : bool)
| JNum (n : Z)
| JStr (s : string)
| JArr (xs : list json)
| JObj (fs : list (string * json)).

(** [o?.k]: field lookup; [None] plays [undefined]. *)
Definition get_field (k : string) (j : json) : option json :=
  match j with
  | JObj fs =>
      match find (fun kv => String.eqb (fst kv) k) fs with
      | Some (_, v) => Some v
      | None => None
      end
  | _ => None
  end.

(** [a?.[0]]: the first element of an array, the field ["0"] of an
    object.  Of a string it is the first character, whose fields are all
    undefined: the code only reads fields of it, and [None] stands for it. *)
Definition first_elem (j : json) : option json :=
  match j with
  | JArr (x :: _) => Some x
  | JObj _ => get_field "0" j
  | _ => None
  end.

Definition opt_bind {A B} (o : option A) (f : A -> option B) : option B :=
  match o with Some a => f a | None => None end.

(** JavaScript truthiness of a (possibly undefined) value. *)
Definition truthy (j : option json) : bool :=
  match j with
  | None | Some JNull => false
  | Some (JBool b) => b
  | Some (JNum n) => negb (n =? 0)
  | Some (JStr s) => negb (String.eqb s EmptyString)
  | Some (JArr _) | Some (JObj _) => true
  end.

(** [x || d] *)
Definition js_or (j : option json) (d : json) : json :=
  match j with
  | Some v => if truthy j then v else d
  | None => d
  end.

(** Build an object literal, leaving out [undefined] fields as
    [JSON.stringify] does. *)
Definition obj_opt (fs : list (string * option json)) : json :=
  JObj (flat_map (fun kv => match snd kv with
                            | Some v => [(fst kv, v)]
                            | None => []
                            end) fs).

(** ** Canonical serialisation (modelled from the spec)

    [hashApifyInput] lives in [./apify-cache], absent from the snapshot.
    The spec requires "canonicalize before hashing": object keys are sorted
    (the default [Array.prototype.sort] order, i.e. lexicographic on code
    units, [String.compare] here) recursively, the result is serialised and
    digested. *)

Definition key_lt (a b : string * json) : Prop := String_as_OT.lt (fst a) (fst b).

Fixpoint insert_field (kv : string * json) (fs : list (string * json))
  : list (string * json) :=
  match fs with
  | [] => [kv]
  | kv' :: fs' =>
      if String.ltb (fst kv) (fst kv') then kv :: fs
      else kv' :: insert_field kv fs'
  end.

Definition sort_fields (fs : list (string * json)) : list (string * json) :=
  fold_right insert_field [] fs.

Fixpoint canon (j : json) : json :=
  match j with
  | JArr xs => JArr (map canon xs)
  | JObj fs => JObj (sort_fields (map (fun '(k, v) => (k, canon v)) fs))
  | _ => j
  end.

Definition canon_kv (kv : string * json) : string * json :=
  (fst kv, canon (snd kv)).

Definition show_Z (n : Z) : string := NilZero.string_of_int (Z.to_int n).

(** The double-quote character. *)
Definition dquote : ascii := ascii_of_nat 34.

Fixpoint escape (s : string) : string :=
  match s with
  | EmptyString => EmptyString
  | String c s' =>
      if Ascii.eqb c dquote then String "\" (String c (escape s'))
      else if Ascii.eqb c "\"%char then String "\" (String c (escape s'))
      else String c (escape s')
  end.

Definition quote (s : string) : string :=
  String dquote EmptyString ++ escape s ++ String dquote EmptyString.

Fixpoint serialize (j : json) : string :=
  match j with
  | JNull => "null"
  | JBool true => "true"
  | JBool false => "false"
  | JNum n => show_Z n
  | JStr s => quote s
  | JArr xs => "[" ++ String.concat "," (map serialize xs) ++ "]"
  | JObj fs =>
      "{" ++ String.concat ","
                (map (fun '(k, v) => quote k ++ ":" ++ serialize v) fs) ++ "}"
  end.

(** Every object has pairwise distinct keys, as every JavaScript object
    does. *)
Fixpoint nodup_keys (ks : list string) : bool :=
  match ks with
  | [] => true
  | k :: ks' => negb (existsb (String.eqb k) ks') && nodup_keys ks'
  end.

Fixpoint wf_json (j : json) : bool :=
  match j with
  | JArr xs => forallb wf_json xs
  | JObj fs => nodup_keys (map fst fs) && forallb (fun '(_, v) => wf_json v) fs
  | _ => true
  end.

(** Two JSON values that differ only in the order of object keys, at any
    depth. *)
Inductive reorder : json -> json -> Prop :=
| ro_null : reorder JNull JNull
| ro_bool b : reorder (JBool b) (JBool b)
| ro_num n : reorder (JNum n) (JNum n)
| ro_str s : reorder (JStr s) (JStr s)
| ro_arr xs ys : reorder_list xs ys -> reorder (JArr xs) (JArr ys)
| ro_obj fs gs hs :
    reorder_fields fs gs -> Permutation gs hs -> reorder (JObj fs) (JObj hs)
with reorder_list : list json -> list json -> Prop :=
| rl_nil : reorder_list [] []
| rl_cons x y xs ys :
    reorder x y -> reorder_list xs ys -> reorder_list (x :: xs) (y :: ys)
with reorder_fields : list (string * json) -> list (string * json) -> Prop :=
| rf_nil : reorder_fields [] []
| rf_cons k v v' fs gs :
    reorder v v' -> reorder_fields fs gs ->
    reorder_fields ((k, v) :: fs) ((k, v') :: gs).

Scheme reorder_mut := Induction for reorder Sort Prop
with reorder_list_mut := Induction for reorder_list Sort Prop
with reorder_fields_mut := Induction for reorder_fields Sort Prop.

(** [hashApifyInput]: digest of the canonical serialisation.  The digest
    function itself (SHA-256 in a Worker) is a parameter of the model. *)
Definition hashApifyInput (digest : string -> string) (j : json) : string :=
  digest (serialize (canon j)).

(** ** Result cache (modelled from the spec)

    [getCachedApifyResult] / [setCachedApifyResult] of [./apify-cache] are
    absent from the snapshot.  Modelled from the spec: an entry is keyed by
    (operation identity, fingerprint) and stores the payload with its
    expiration [stored-at + ttl]; an expired entry reads as absent; a
    backend failure on [get] degrades to a miss and one on [put] is
    swallowed; [put] overwrites. *)

Record cache_entry : Type := { ce_payload : json; ce_expires : Z }.

Definition kv_store : Type := list ((string * string) * cache_entry).

Definition key_eqb (a b : string * string) : bool :=
  String.eqb (fst a) (fst b) && String.eqb (snd a) (snd b).

Definition kv_find (k : string * string) (kv : kv_store) : option cache_entry :=
  match find (fun e => key_eqb (fst e) k) kv with
  | Some (_, e) => Some e
  | None => None
  end.

Definition kv_put (k : string * string) (e : cache_entry) (kv : kv_store) : kv_store :=
  (k, e) :: filter (fun e' => negb (key_eqb (fst e') k)) kv.

(** [backend_ok = false] is an unreachable store. *)
Definition getCachedApifyResult (backend_ok : bool) (kv : kv_store) (now : Z)
    (actorId cacheKey : string) : option json :=
  if backend_ok then
    match kv_find (actorId, cacheKey) kv with
    | Some e => if now <? ce_expires e then Some (ce_payload e) else None
    | None => None
    end
  else None.

Definition setCachedApifyResult (backend_ok : bool) (kv : kv_store) (now : Z)
    (actorId cacheKey : string) (payload : json) (ttl : Z) : kv_store :=
  if backend_ok
  then kv_put (actorId, cacheKey) {| ce_payload := payload; ce_expires := now + ttl |} kv
  else kv.

(** ** Admission controller (modelled from the spec)

    The [ApifySemaphore] Durable Object is absent from the snapshot.
    Modelled from the spec: one global instance ([idFromName("global")])
    whose [acquireSlot] is a single atomic check-and-increment (a Durable
    Object processes one call at a time, so concurrent calls are some
    sequence of these steps); a denied call leaves the state unchanged;
    [releaseSlot] removes the holder's slot if there is one. *)

Record SemaphoreSlot : Type := {
  acquired : bool;
  currentSlots : nat;
  maxSlots : nat;
  estimatedWaitTime : option Z
}.

Record slot : Type := { holder : string; acquiredAt : Z; slotActor : string }.

(** Configured capacity and the advisory wait estimate reported on
    denial (the spec leaves its derivation open). *)
Record sem_config : Type := { cfg_max : nat; cfg_wait : Z }.

(** 32 slots, as deployed (SNAPSHOT.md, docs). *)
Definition APIFY_SEMAPHORE_CONFIG : sem_config := {| cfg_max := 32; cfg_wait := 60 |}.

Definition acquireSlot (cfg : sem_config) (slots : list slot) (now : Z)
    (userId actorId : string) : SemaphoreSlot * list slot :=
  let n := length slots in
  if Nat.ltb n (cfg_max cfg) then
    ({| acquired := true; currentSlots := S n; maxSlots := cfg_max cfg;
        estimatedWaitTime := None |},
     (slots ++ [{| holder := userId; acquiredAt := now; slotActor := actorId |}])%list)
  else
    ({| acquired := false; currentSlots := n; maxSlots := cfg_max cfg;
        estimatedWaitTime := Some (cfg_wait cfg) |}, slots).

Fixpoint releaseSlot (userId : string) (slots : list slot) : list slot :=
  match slots with
  | [] => []
  | s :: rest => if String.eqb (holder s) userId then rest else s :: releaseSlot userId rest
  end.

Definition cleanupStale (maxAge now : Z) (slots : list slot) : list slot :=
  filter (fun s => now - acquiredAt s <=? maxAge) slots.

(** ** World, request-local variables and the handler monad *)

(** Calls to the collaborators, in order; [EvAcquire] records the
    [acquired] flag of the answer. *)
Inductive event : Type :=
| EvCacheGet (actorId cacheKey : string)
| EvCachePut (actorId cacheKey : string)
| EvAcquire (userId actorId : string) (granted : bool)
| EvRelease (userId : string)
| EvRunActor (actorId : string) (input : json)
| EvAI
| EvUsage (userId tool : string) (fromCache : bool)
| EvBalance (userId : string).

Record world : Type := {
  now : Z;
  kv : kv_store;
  slots : list slot;
  trace : list event
}.

(** The handler's [let slot] and [let userId], read by its [finally]. *)
Record st : Type := {
  st_w : world;
  st_user : option string;
  st_slot : option SemaphoreSlot
}.

(** A computation either returns or throws (the thrown value's message). *)
Definition M (A : Type) : Type := st -> (A + string) * st.

Definition ret {A} (a : A) : M A := fun s => (inl a, s).
Definition throw {A} (msg : string) : M A := fun s => (inr msg, s).
Definition bind {A B} (m : M A) (f : A -> M B) : M B :=
  fun s => match m s with
           | (inl a, s') => f a s'
           | (inr e, s') => (inr e, s')
           end.

Notation "x <- m ;; k" := (bind m (fun x => k))
  (at level 61, m at next level, right associativity).
Notation "m ;;; k" := (bind m (fun _ => k))
  (at level 61, right associativity).

(** [try { body } catch (e) { handler } finally { fin }] *)
Definition try_catch_finally {A} (body : M A) (handler : string -> M A) (fin : M unit)
  : M A :=
  fun s =>
    let (r, s1) := body s in
    let (r2, s2) := match r with
                    | inl a => (inl a, s1)
                    | inr e => handler e s1
                    end in
    match fin s2 with
    | (inl _, s3) => (r2, s3)
    | (inr e, s3) => (inr e, s3)
    end.

Definition get_w : M world := fun s => (inl (st_w s), s).
Definition put_w (w : world) : M unit :=
  fun s => (inl tt, {| st_w := w; st_user := st_user s; st_slot := st_slot s |}).
Definition get_user : M (option string) := fun s => (inl (st_user s), s).
Definition set_user (u : option string) : M unit :=
  fun s => (inl tt, {| st_w := st_w s; st_user := u; st_slot := st_slot s |}).
Definition get_slot : M (option SemaphoreSlot) := fun s => (inl (st_slot s), s).
Definition set_slot (sl : option SemaphoreSlot) : M unit :=
  fun s => (inl tt, {| st_w := st_w s; st_user := st_user s; st_slot := sl |}).

Definition emit (e : event) : M unit :=
  w <- get_w ;;
  put_w {| now := now w; kv := kv w; slots := slots w; trace := (trace w ++ [e])%list |}.


(** ** External collaborators of one request

    What the out-of-scope services answer during one request: the
    authenticated user ([this.props?.userId]), whether the cache backend is
    reachable on read and on write, whether the semaphore Durable Object
    answers, the outcome of [ApifyClient.runActorSync] (a timeout or an
    upstream error is a thrown error), the AI Gateway's answer, whether the
    usage ledger call succeeds, the balance check ([sufficient] and
    [currentBalance]), the digest used by [hashApifyInput], Step 4.5 of the
    API-key path ([sanitizeOutput]/[redactPII]/[JSON.parse]; [None] when
    the parse throws), and [formatInsufficientTokensError(toolName,
    currentBalance, cost)] of [./tokenUtils], a file absent from the
    snapshot. *)

Inductive run_outcome : Type :=
| RunOk (items : option (list json))
| RunFail (msg : string).

Inductive ai_outcome : Type :=
| AiThrow (msg : string)
| AiFailed
| AiOk (parsed : option json).

Record deps : Type := {
  d_digest : string -> string;
  d_user : option string;
  d_cache_get_ok : bool;
  d_cache_put_ok : bool;
  d_sem_ok : bool;
  d_run : run_outcome;
  d_ai : ai_outcome;
  d_usage_ok : bool;
  d_balance_ok : bool;
  d_current_balance : Z;
  d_secure : json -> option json;
  d_format_insufficient : string -> Z -> Z -> string
}.

Definition cache_get (d : deps) (actorId cacheKey : string) : M (option json) :=
  emit (EvCacheGet actorId cacheKey) ;;;
  w <- get_w ;;
  ret (getCachedApifyResult (d_cache_get_ok d) (kv w) (now w) actorId cacheKey).

Definition cache_put (d : deps) (actorId cacheKey : string) (payload : json) (ttl : Z)
  : M unit :=
  emit (EvCachePut actorId cacheKey) ;;;
  w <- get_w ;;
  put_w {| now := now w;
           kv := setCachedApifyResult (d_cache_put_ok d) (kv w) (now w) actorId cacheKey payload ttl;
           slots := slots w; trace := trace w |}.

(** [semaphore.acquireSlot(userId, ACTOR_ID)] on the global instance. *)
Definition sem_acquire (d : deps) (cfg : sem_config) (userId actorId : string)
  : M SemaphoreSlot :=
  if d_sem_ok d then
    w <- get_w ;;
    let (r, sl') := acquireSlot cfg (slots w) (now w) userId actorId in
    put_w {| now := now w; kv := kv w; slots := sl'; trace := trace w |} ;;;
    emit (EvAcquire userId actorId (acquired r)) ;;;
    ret r
  else throw "Durable Object call failed".

(** [semaphore.releaseSlot(userId)] *)
Definition sem_release (userId : string) : M unit :=
  emit (EvRelease userId) ;;;
  w <- get_w ;;
  put_w {| now := now w; kv := kv w; slots := releaseSlot userId (slots w); trace := trace w |}.

Definition runActorSync (d : deps) (actorId : string) (input : json) (timeout : Z)
  : M (option (list json)) :=
  emit (EvRunActor actorId input) ;;;
  match d_run d with
  | RunOk items => ret items
  | RunFail msg => throw msg
  end.

Definition makeAIGatewayRequest (d : deps) : M ai_outcome :=
  emit EvAI ;;;
  match d_ai d with
  | AiThrow msg => throw msg
  | o => ret o
  end.

(** [logToolUsage] (OAuth path) and [consumeTokensWithRetry] (API-key
    path): the usage ledger. *)
Definition record_usage (d : deps) (userId tool : string) (fromCache : bool) : M unit :=
  emit (EvUsage userId tool fromCache) ;;;
  if d_usage_ok d then ret tt else throw "usage ledger failed".

(** [checkBalance(env.TOKEN_DB, userId, FLAT_COST)]: [sufficient] and
    [currentBalance]. *)
Definition checkBalance (d : deps) (userId : string) : M (bool * Z) :=
  emit (EvBalance userId) ;;; ret (d_balance_ok d, d_current_balance d).

(** [s] starts with [p]: the rest of [s] after it. *)
Fixpoint strip_prefix (p s : string) : option string :=
  match p, s with
  | EmptyString, _ => Some s
  | String c p', String c' s' => if Ascii.eqb c c' then strip_prefix p' s' else None
  | String _ _, EmptyString => None
  end.

(** ** JavaScript conversions of parsed JSON values

    A string is the UTF-8 encoding of the JavaScript string; [bytes]
    writes one out from its byte values.  A number [JNum n] is the JSON
    literal [n]: [JSON.parse] turns it into the nearest double. *)

Definition bytes (l : list Z) : string :=
  fold_right (fun n s => String (ascii_of_nat (Z.to_nat n)) s) EmptyString l.

(** [s] starts with one of [ps]: the rest of [s] after it. *)
Fixpoint strip_one (ps : list string) (s : string) : option string :=
  match ps with
  | [] => None
  | p :: ps' =>
      match strip_prefix p s with
      | Some r => Some r
      | None => strip_one ps' s
      end
  end.

(** The line terminators of ECMAScript: LF, CR, U+2028 and U+2029.  A
    lead byte of UTF-8 is never a continuation byte, so a match at any
    byte offset is a match at a character. *)
Definition line_terminators : list string :=
  map bytes [[10]; [13]; [226; 128; 168]; [226; 128; 169]].

(** [StrWhiteSpaceChar]: TAB, VT, FF, ZWNBSP (U+FEFF), the [Zs] space
    separators (U+0020, U+00A0, U+1680, U+2000 to U+200A, U+202F, U+205F,
    U+3000) and the line terminators. *)
Definition js_whitespace : list string :=
  map bytes [[9]; [11]; [12]; [239; 187; 191]; [32]; [194; 160]; [225; 154; 128];
             [226; 128; 128]; [226; 128; 129]; [226; 128; 130]; [226; 128; 131];
             [226; 128; 132]; [226; 128; 133]; [226; 128; 134]; [226; 128; 135];
             [226; 128; 136]; [226; 128; 137]; [226; 128; 138];
             [226; 128; 175]; [226; 129; 159]; [227; 128; 128]]
  ++ line_terminators.

Fixpoint skip_ws (fuel : nat) (s : string) : string :=
  match fuel with
  | O => s
  | S fuel' =>
      match strip_one js_whitespace s with
      | Some r => skip_ws fuel' r
      | None => s
      end
  end.

(** The string without its leading white space. *)
Definition trim_start (s : string) : string := skip_ws (String.length s) s.

Definition all_ws (s : string) : bool := String.eqb (trim_start s) EmptyString.

(** ** Numbers as doubles *)

(** A non-negative integer rounded to 53 significant bits, ties to even. *)
Definition round53 (a : Z) : Z :=
  if a <? 2 ^ 53 then a else
  let sh := Z.log2 a - 52 in
  let q := Z.shiftr a sh in
  let r := a - Z.shiftl q sh in
  let half := Z.shiftl 1 (sh - 1) in
  let q' := if (half <? r) || ((r =? half) && Z.odd q) then q + 1 else q in
  Z.shiftl q' sh.

(** The double nearest to the integer [n]; [None] when it overflows to an
    infinity. *)
Definition double_of_Z (n : Z) : option Z :=
  let m := round53 (Z.abs n) in
  if 2 ^ 1024 <=? m then None else Some (Z.sgn n * m).

(** Steps 5 of Number::toString for the positive double [m] (an integer
    with [D] decimal digits): the least [k] with a [k]-digit [s] and an [n]
    such that [s * 10 ^ (n - k)] rounds to [m]; among two such [s], the one
    whose value is closer to [m], then the even one.  The reals that round
    to [m] form an interval around [m], so at each [k] only the two
    [k]-digit neighbours of [m] need testing; [k = D] always succeeds. *)
Fixpoint shortest_digits (m D k : Z) (fuel : nat) : Z * Z :=
  match fuel with
  | O => (m, D)
  | S fuel' =>
      let e := D - k in
      let s1 := m / 10 ^ e in
      let s2 := s1 + 1 in
      let ok s := match double_of_Z (s * 10 ^ e) with
                  | Some m' => m' =? m
                  | None => false
                  end in
      let d1 := Z.abs (s1 * 10 ^ e - m) in
      let d2 := Z.abs (s2 * 10 ^ e - m) in
      let c2 := if s2 =? 10 ^ k then (10 ^ (k - 1), D + 1) else (s2, D) in
      match ok s1, ok s2 with
      | true, true =>
          if d1 <? d2 then (s1, D) else if d2 <? d1 then c2
          else if Z.even s1 then (s1, D) else c2
      | true, false => (s1, D)
      | false, true => c2
      | false, false => shortest_digits m D (k + 1) fuel'
      end
  end.

Fixpoint zeros (n : nat) : string :=
  match n with O => EmptyString | S n' => String "0" (zeros n') end.

(** Number::toString of a positive double [m]: plain digits up to 21
    digits, the exponent form above. *)
Definition pos_number_to_string (m : Z) : string :=
  let D := Z.of_nat (String.length (show_Z m)) in
  let (s, n) := shortest_digits m D 1 (Z.to_nat D) in
  let ds := show_Z s in
  let k := Z.of_nat (String.length ds) in
  if n <=? 21 then ds ++ zeros (Z.to_nat (n - k))
  else
    let ex := "e+" ++ show_Z (n - 1) in
    match ds with
    | String c EmptyString => String c ex
    | String c rest => String c ("." ++ rest ++ ex)
    | EmptyString => ex
    end.

(** [String(x)] for the number [JSON.parse] reads from the literal [n]. *)
Definition number_to_string (n : Z) : string :=
  match double_of_Z n with
  | None => if n <? 0 then "-Infinity" else "Infinity"
  | Some m =>
      if m =? 0 then "0"
      else if m <? 0 then "-" ++ pos_number_to_string (- m)
      else pos_number_to_string m
  end.

(** ** [ToString] and [ToPrimitive]

    An object of [JSON.parse] has [Object.prototype] as prototype and only
    data properties.  With an own [toString] field, [ToPrimitive] finds no
    callable method ([valueOf] gives back the object itself) and throws a
    [TypeError].  Otherwise the object prints as [[object Object]]. *)

Definition TO_PRIMITIVE_ERROR : string := "Cannot convert object to primitive value".

Definition has_own (k : string) (fs : list (string * json)) : bool :=
  existsb (fun kv => String.eqb (fst kv) k) fs.

(** [String(v)] (the conversion of a template literal); [None] is the
    [TypeError].  An array prints as [join(",")], with [null] elements
    empty. *)
Fixpoint js_to_string (j : json) : option string :=
  match j with
  | JNull => Some "null"
  | JBool true => Some "true"
  | JBool false => Some "false"
  | JNum n => Some (number_to_string n)
  | JStr s => Some s
  | JArr xs =>
      option_map (String.concat ",")
        ((fix go (xs : list json) : option (list string) :=
            match xs with
            | [] => Some []
            | x :: xs' =>
                match (match x with JNull => Some EmptyString | _ => js_to_string x end), go xs' with
                | Some a, Some b => Some (a :: b)
                | _, _ => None
                end
            end) xs)
  | JObj fs => if has_own "toString" fs then None else Some "[object Object]"
  end.

(** [`${v}`] of a possibly [undefined] value. *)
Definition js_template (o : option json) : option string :=
  match o with None => Some "undefined" | Some j => js_to_string j end.

(** ** [Number(s) > 0] for a string [s]

    [StringToNumber]: white space around a [StrNumericLiteral]; an empty
    or blank string is 0, anything else is [NaN].  A decimal literal
    [M * 10 ^ E] is positive unless it has a minus sign, [M = 0], or it
    rounds to 0, which happens exactly when it is at most half the least
    subnormal, [2 ^ -1075]. *)

Definition digit_val (radix : Z) (c : ascii) : option Z :=
  let n := Z.of_nat (nat_of_ascii c) in
  let v := if (48 <=? n) && (n <=? 57) then Some (n - 48)
           else if (97 <=? n) && (n <=? 122) then Some (n - 87)
           else if (65 <=? n) && (n <=? 90) then Some (n - 55)
           else None in
  match v with
  | Some dv => if dv <? radix then Some dv else None
  | None => None
  end.

(** The longest prefix of digits: its value, its length and the rest. *)
Fixpoint take_digits (radix : Z) (s : string) (acc cnt : Z) : Z * Z * string :=
  match s with
  | String c s' =>
      match digit_val radix c with
      | Some dv => take_digits radix s' (acc * radix + dv) (cnt + 1)
      | None => (acc, cnt, s)
      end
  | EmptyString => (acc, cnt, s)
  end.

(** [0x], [0o] and [0b] literals (no sign): [None] when [t] has none of
    these prefixes. *)
Definition nondecimal_gt_zero (t : string) : option bool :=
  match t with
  | String "0"%char (String c r) =>
      let radix :=
        if Ascii.eqb c "x"%char || Ascii.eqb c "X"%char then Some 16
        else if Ascii.eqb c "o"%char || Ascii.eqb c "O"%char then Some 8
        else if Ascii.eqb c "b"%char || Ascii.eqb c "B"%char then Some 2
        else None in
      match radix with
      | Some rdx =>
          let '(v, nd, r') := take_digits rdx r 0 0 in
          Some ((0 <? nd) && all_ws r' && (0 <? v))
      | None => None
      end
  | _ => None
  end.

(** [StrDecimalLiteral]: [+] or [-], then [Infinity] or
    [digits [. digits] [e [sign] digits]] with a digit somewhere before
    the exponent. *)
Definition decimal_gt_zero (t : string) : bool :=
  let '(neg, t1) :=
    match t with
    | String "+"%char r => (false, r)
    | String "-"%char r => (true, r)
    | _ => (false, t)
    end in
  match strip_prefix "Infinity" t1 with
  | Some r => negb neg && all_ws r
  | None =>
      let '(ip, ni, r1) := take_digits 10 t1 0 0 in
      let '(fp, nf, r2) :=
        match r1 with
        | String "."%char r => take_digits 10 r 0 0
        | _ => (0, 0, r1)
        end in
      let '(ok_exp, ex, r3) :=
        match r2 with
        | String c r =>
            if Ascii.eqb c "e"%char || Ascii.eqb c "E"%char then
              let '(eneg, r') :=
                match r with
                | String "+"%char r'' => (false, r'')
                | String "-"%char r'' => (true, r'')
                | _ => (false, r)
                end in
              let '(ev, ne, r'') := take_digits 10 r' 0 0 in
              if ne =? 0 then (false, 0, r2) else (true, if eneg then - ev else ev, r'')
            else (true, 0, r2)
        | EmptyString => (true, 0, r2)
        end in
      let M := ip * 10 ^ nf + fp in
      let E := ex - nf in
      (0 <? ni + nf) && ok_exp && all_ws r3 && negb neg && (0 <? M) &&
      (if 0 <=? E then true else 10 ^ (- E) <? 2 ^ 1075 * M)
  end.

Definition string_gt_zero (s : string) : bool :=
  let t := trim_start s in
  if String.eqb t EmptyString then false
  else match nondecimal_gt_zero t with
       | Some b => b
       | None => decimal_gt_zero t
       end.

(** [v > 0]: [ToPrimitive] with hint number, then [ToNumber]; [None] is
    the [TypeError].  Rounding a non-zero integer to a double keeps its
    sign. *)
Definition js_gt_zero (j : json) : option bool :=
  match j with
  | JNum n => Some (0 <? n)
  | JBool b => Some b
  | JNull => Some false
  | JStr s => Some (string_gt_zero s)
  | JArr _ | JObj _ => option_map string_gt_zero (js_to_string j)
  end.

(** ** URL validation: [/^https:\/\/(www\.)?facebook\.com\/.+$/.test(u)]

    [.] matches any character but a line terminator (LF, CR, U+2028,
    U+2029) and [$] (no [m] flag) only matches at the end of input.  The two branches of [(www\.)?] start
    with different letters, so the regex holds exactly when one of them
    does. *)

Fixpoint no_line_terminator (s : string) : bool :=
  match s with
  | EmptyString => true
  | String _ s' =>
      negb (match strip_one line_terminators s with Some _ => true | None => false end)
      && no_line_terminator s'
  end.

(** [.+$] *)
Definition dot_plus_to_end (s : string) : bool :=
  negb (String.eqb s EmptyString) && no_line_terminator s.

Definition facebookUrlPattern_test (u : string) : bool :=
  match strip_prefix "https://" u with
  | Some r =>
      match strip_prefix "www.facebook.com/" r with
      | Some rest => dot_plus_to_end rest
      | None => false
      end
      ||
      match strip_prefix "facebook.com/" r with
      | Some rest => dot_plus_to_end rest
      | None => false
      end
  | None => false
  end.

(** ** The three tools *)

Inductive tool : Type :=
| AnalyzeCompetitorStrategy
| FetchCreativeGallery
| CheckActivityPulse.

(** Tool arguments: [facebook_page_url], and the optional
    [max_ads_to_analyze] / [limit] (unused by [checkActivityPulse]). *)
Record tool_params : Type := {
  facebook_page_url : string;
  limit_param : option Z
}.

Definition ACTOR_ID : string := "apify/facebook-ads-scraper".
Definition CACHE_TTL : Z := 21600.
Definition INVALID_URL_MSG : string :=
  "Invalid Facebook Page URL. Must start with https://facebook.com/".

Definition TOOL_NAME (t : tool) : string :=
  match t with
  | AnalyzeCompetitorStrategy => "analyzeCompetitorStrategy"
  | FetchCreativeGallery => "fetchCreativeGallery"
  | CheckActivityPulse => "checkActivityPulse"
  end.

Definition TIMEOUT (t : tool) : Z :=
  match t with CheckActivityPulse => 60 | _ => 120 end.

Definition FLAT_COST (t : tool) : Z :=
  match t with
  | AnalyzeCompetitorStrategy => 5
  | FetchCreativeGallery => 3
  | CheckActivityPulse => 1
  end.

Definition actorInput (t : tool) (p : tool_params) : json :=
  let mk limit onlyTotal details :=
    JObj [("startUrls", JArr [JObj [("url", JStr (facebook_page_url p))]]);
          ("resultsLimit", limit);
          ("activeStatus", JStr "active");
          ("onlyTotal", JBool onlyTotal);
          ("isDetailsPerAd", JBool details);
          ("proxy", JObj [("useApifyProxy", JBool true)])] in
  match t with
  | CheckActivityPulse => mk (JNum 1) true false
  | _ => mk (js_or (option_map JNum (limit_param p)) (JNum 10)) false true
  end.

(** [{ actorId, input }], the object given to [hashApifyInput]. *)
Definition apify_key (actorId : string) (input : json) : json :=
  JObj [("actorId", JStr actorId); ("input", input)].

Definition cache_key_object (input : json) : json := apify_key ACTOR_ID input.

Inductive tool_result : Type :=
| Success (payload : json)
| IsError (text : string).


(** ** Post-processing of the scraper's items

    [results.items || []]; items are the scraper's ad objects.  Numbers are
    integers here; [Math.round((k / n) * 100)] is computed exactly as
    [floor((200 k + n) / (2 n))].  [new Date().toISOString()] is rendered
    from the world clock. *)

Definition raw_ads (items : option (list json)) : list json :=
  match items with Some xs => xs | None => [] end.

Definition iso_date (t : Z) : string := show_Z t.

Definition snapshot_of (ad : json) : option json := get_field "snapshot" ad.

(** [ad.snapshot?.cards?.[0]] *)
Definition card_of (ad : json) : option json :=
  opt_bind (opt_bind (snapshot_of ad) (get_field "cards")) first_elem.

(** [rawAds[0]?.pageName || "Unknown"] *)
Definition page_name_of (ads : list json) : json :=
  js_or (opt_bind (hd_error ads) (get_field "pageName")) (JStr "Unknown").

(** [k / n] for integers [0 < k <= n]: the double nearest to it,
    [m * 2 ^ -e] with [2 ^ 52 <= m <= 2 ^ 53] (ties to even). *)
Definition div_round (p q : Z) : Z * Z :=
  let e0 := 53 + Z.log2 q - Z.log2 p in
  let fl e := if 0 <=? e then (p * 2 ^ e) / q else p / (q * 2 ^ (- e)) in
  let e := if 2 ^ 53 <=? fl e0 then e0 - 1 else e0 in
  let num := if 0 <=? e then p * 2 ^ e else p in
  let den := if 0 <=? e then q else q * 2 ^ (- e) in
  let m0 := num / den in
  let rem := num mod den in
  let m := if (den <? 2 * rem) || ((2 * rem =? den) && Z.odd m0) then m0 + 1 else m0 in
  (m, e).

(** [rawAds.length > 0 ? Math.round((k / rawAds.length) * 100) : 0] for
    [0 <= k]: the double [k / n], times 100 rounded to a double ([round53]
    of the mantissa [100 * m]), then [Math.round], [floor(x + 1/2)]. *)
Definition round_pct (k n : Z) : Z :=
  if n >? 0 then
    if k =? 0 then 0 else
    let (m, e) := div_round k n in
    let a := round53 (100 * m) in
    Z.shiftr (2 * a + Z.shiftl 1 e) (e + 1)
  else 0.

(** [ad.snapshot] on a [null] ad. *)
Definition NULL_SNAPSHOT_ERROR : string := "Cannot read properties of null (reading 'snapshot')".

Definition is_null (j : json) : bool := match j with JNull => true | _ => false end.

(** [ad.snapshot?.body?.text], the text [analyzeCompetitorStrategy] sends to the AI Gateway. *)
Definition ad_text (ad : json) : option json :=
  opt_bind (opt_bind (snapshot_of ad) (get_field "body")) (get_field "text").

(** [text && text.length > 0]: the [length] of a string (non-empty when
    truthy) or an array, an object's own [length] field; numbers and
    booleans have none.  [None] is the [TypeError] of [>] on a [length]
    without a primitive value. *)
Definition nonempty_text (j : option json) : option bool :=
  if negb (truthy j) then Some false else
  match j with
  | Some (JStr _) => Some true
  | Some (JArr xs) => Some (Nat.ltb 0 (length xs))
  | Some (JObj _ as o) =>
      match get_field "length" o with
      | Some v => js_gt_zero v
      | None => Some false
      end
  | _ => Some false
  end.

(** [xs.filter(p)] for a predicate that may throw ([None]). *)
Fixpoint filter_opt {A} (p : A -> option bool) (xs : list A) : option (list A) :=
  match xs with
  | [] => Some []
  | x :: xs' =>
      match p x with
      | None => None
      | Some b => option_map (fun ys => if b then x :: ys else ys) (filter_opt p xs')
      end
  end.

(** [adTexts.join('\n---\n')] in the prompt converts each text with
    [ToString]. *)
Definition printable (o : option json) : bool :=
  match js_template o with Some _ => true | None => false end.




Definition default_hooks : json := JObj [("hooks", JArr [])].

Definition analyze_result (d : deps) (items : option (list json)) : M json :=
  let ads := raw_ads items in
  if existsb is_null ads then throw NULL_SNAPSHOT_ERROR else
  let n := Z.of_nat (length ads) in
  let videoCount :=
    Z.of_nat (length (filter (fun ad => truthy (opt_bind (card_of ad) (get_field "video_hd_url"))) ads)) in
  let imageCount := n - videoCount in
  let formatStats :=
    JObj [("total", JNum n);
          ("video_percentage", JNum (round_pct videoCount n));
          ("image_percentage", JNum (round_pct imageCount n))] in
  match filter_opt nonempty_text (map ad_text ads) with
  | None => throw TO_PRIMITIVE_ERROR
  | Some texts =>
  let adTexts := firstn 10 texts in
  hooks <- (match adTexts with
            | [] => ret default_hooks
            | _ :: _ =>
                if negb (forallb printable adTexts) then throw TO_PRIMITIVE_ERROR else
                r <- makeAIGatewayRequest d ;;
                ret (match r with AiOk (Some j) => j | _ => default_hooks end)
            end) ;;
  w <- get_w ;;
  ret (JObj [("format_statistics", formatStats);
             ("marketing_hooks", hooks);
             ("metadata", JObj [("page_name", page_name_of ads);
                                ("analysis_date", JStr (iso_date (now w)));
                                ("sample_size", JNum n)])])
  end.

(** One creative of [fetchCreativeGallery], with its [url] for the
    [.filter(creative => creative.url)]. *)
Definition creative_of (ad : json) : option json * json :=
  let card := card_of ad in
  let isVideo := truthy (opt_bind card (get_field "video_hd_url")) in
  let url := if isVideo then opt_bind card (get_field "video_hd_url")
             else opt_bind card (get_field "originalImageUrl") in
  let snap := snapshot_of ad in
  (url,
   obj_opt [("type", Some (JStr (if isVideo then "video" else "image")));
            ("url", url);
            ("thumbnail_url", opt_bind card (get_field "originalImageUrl"));
            ("headline", Some (js_or (opt_bind snap (get_field "title")) (JStr EmptyString)));
            ("body_text", Some (js_or (opt_bind (opt_bind snap (get_field "body")) (get_field "text")) (JStr EmptyString)));
            ("cta", Some (js_or (opt_bind snap (get_field "ctaText")) (JStr EmptyString)))]).

Definition gallery_result (items : option (list json)) : M json :=
  let ads := raw_ads items in
  if existsb is_null ads then throw NULL_SNAPSHOT_ERROR else
  let creatives := map snd (filter (fun c => truthy (fst c)) (map creative_of ads)) in
  w <- get_w ;;
  ret (JObj [("creatives", JArr creatives);
             ("metadata", JObj [("total_count", JNum (Z.of_nat (length creatives)));
                                ("page_name", page_name_of ads);
                                ("fetch_date", JStr (iso_date (now w)))])]).

(** [checkActivityPulse]'s [finalResult]; [None] is the [TypeError] of
    [totalCount > 0] on a value without a primitive value. *)
Definition pulse_result_at (t : Z) (items : option (list json)) : option json :=
  let first := match items with Some (x :: _) => Some x | _ => None end in
  let totalCount := js_or (opt_bind first (get_field "totalCount")) (JNum 0) in
  let pageName := js_or (opt_bind first (get_field "pageName")) (JStr "Unknown") in
  match js_gt_zero totalCount with
  | Some active =>
      Some (JObj [("is_active", JBool active);
                  ("total_ads", totalCount);
                  ("page_name", pageName);
                  ("last_updated", JStr (iso_date t))])
  | None => None
  end.

Definition pulse_result (items : option (list json)) : M json :=
  w <- get_w ;;
  match pulse_result_at (now w) items with
  | Some j => ret j
  | None => throw TO_PRIMITIVE_ERROR
  end.

Definition tool_result_of (d : deps) (t : tool) (items : option (list json)) : M json :=
  match t with
  | AnalyzeCompetitorStrategy => analyze_result d items
  | FetchCreativeGallery => gallery_result items
  | CheckActivityPulse => pulse_result items
  end.

(** ** The OAuth tool handler ([src/server.ts], all three tools) *)

(** [finally { if (slot && slot.acquired && userId) releaseSlot(userId) }] *)
Definition oauth_finally : M unit :=
  sl <- get_slot ;;
  u <- get_user ;;
  match sl, u with
  | Some s, Some uid =>
      if acquired s && negb (String.eqb uid EmptyString) then sem_release uid else ret tt
  | _, _ => ret tt
  end.

(** From "STEP 3.7: Acquire Semaphore" to "STEP 5: Return Result". *)
Definition oauth_miss (cfg : sem_config) (d : deps) (t : tool) (uid : string)
    (input : json) (cacheKey : string) : M tool_result :=
  slot <- sem_acquire d cfg uid ACTOR_ID ;;
  set_slot (Some slot) ;;;
  results <- runActorSync d ACTOR_ID input (TIMEOUT t) ;;
  finalResult <- tool_result_of d t results ;;
  cache_put d ACTOR_ID cacheKey finalResult CACHE_TTL ;;;
  record_usage d uid (TOOL_NAME t) false ;;;
  ret (Success finalResult).

Definition oauth_body (cfg : sem_config) (d : deps) (t : tool) (p : tool_params)
  : M tool_result :=
  set_user (d_user d) ;;;
  match d_user d with
  | None => throw "User ID not found"
  | Some uid =>
      if String.eqb uid EmptyString then throw "User ID not found" else
      if negb (facebookUrlPattern_test (facebook_page_url p)) then throw INVALID_URL_MSG else
      let input := actorInput t p in
      let cacheKey := hashApifyInput (d_digest d) (cache_key_object input) in
      cached <- cache_get d ACTOR_ID cacheKey ;;
      match cached with
      | Some c =>
          if truthy cached
          then record_usage d uid (TOOL_NAME t) true ;;; ret (Success c)
          else oauth_miss cfg d t uid input cacheKey
      | None => oauth_miss cfg d t uid input cacheKey
      end
  end.

Definition oauth_handler (cfg : sem_config) (d : deps) (t : tool) (p : tool_params)
  : M tool_result :=
  try_catch_finally (oauth_body cfg d t p)
    (fun e => ret (IsError ("Error: " ++ e)))
    oauth_finally.

(** ** The API-key tool executors ([src/api-key-handler.ts]) *)

(** [finally { if (slot && slot.acquired) releaseSlot(userId) }] *)
Definition api_finally (userId : string) : M unit :=
  sl <- get_slot ;;
  match sl with
  | Some s => if acquired s then sem_release userId else ret tt
  | None => ret tt
  end.

(** Step 4.5: [JSON.parse(redactPII(sanitizeOutput(JSON.stringify(r))))]. *)
Definition secure_result (d : deps) (r : json) : M json :=
  match d_secure d r with
  | Some j => ret j
  | None => throw "Unexpected token in JSON"
  end.

Definition api_miss (cfg : sem_config) (d : deps) (t : tool) (userId : string)
    (input : json) (cacheKey : string) : M tool_result :=
  slot <- sem_acquire d cfg userId ACTOR_ID ;;
  set_slot (Some slot) ;;;
  results <- runActorSync d ACTOR_ID input (TIMEOUT t) ;;
  finalResult <- tool_result_of d t results ;;
  secureResult <- secure_result d finalResult ;;
  cache_put d ACTOR_ID cacheKey secureResult CACHE_TTL ;;;
  record_usage d userId (TOOL_NAME t) false ;;;
  ret (Success secureResult).

Definition api_body (cfg : sem_config) (d : deps) (t : tool) (p : tool_params)
    (userId : string) : M tool_result :=
  if negb (facebookUrlPattern_test (facebook_page_url p)) then throw INVALID_URL_MSG else
  balanceCheck <- checkBalance d userId ;;
  if negb (fst balanceCheck)
  then ret (IsError (d_format_insufficient d (TOOL_NAME t) (snd balanceCheck) (FLAT_COST t)))
  else
  let input := actorInput t p in
  let cacheKey := hashApifyInput (d_digest d) (cache_key_object input) in
  cached <- cache_get d ACTOR_ID cacheKey ;;
  match cached with
  | Some c =>
      if truthy cached
      then (if FLAT_COST t >? 0 then record_usage d userId (TOOL_NAME t) true else ret tt) ;;;
           ret (Success c)
      else api_miss cfg d t userId input cacheKey
  | None => api_miss cfg d t userId input cacheKey
  end.

Definition api_key_handler (cfg : sem_config) (d : deps) (t : tool) (p : tool_params)
    (userId : string) : M tool_result :=
  try_catch_finally (api_body cfg d t p userId)
    (fun e => ret (IsError ("Error: " ++ e)))
    (api_finally userId).

(** ** Running one request *)

Inductive path : Type := OAuthPath | ApiKeyPath (userId : string).

Definition handler (pa : path) (cfg : sem_config) (d : deps) (t : tool) (p : tool_params)
  : M tool_result :=
  match pa with
  | OAuthPath => oauth_handler cfg d t p
  | ApiKeyPath uid => api_key_handler cfg d t p uid
  end.

(** A request starts with [slot = null] and [userId] unset; the handler
    never lets an exception escape (its [catch] returns a value), so the
    response is the returned value. *)
Definition run_request (pa : path) (cfg : sem_config) (d : deps) (t : tool)
    (p : tool_params) (w : world) : (tool_result + string) * world :=
  let (r, s) := handler pa cfg d t p {| st_w := w; st_user := None; st_slot := None |} in
  (r, st_w s).


(** ** Observations on a request *)

(** The fingerprint a request's handler computes. *)
Definition fp (d : deps) (t : tool) (p : tool_params) : string :=
  hashApifyInput (d_digest d) (cache_key_object (actorInput t p)).

Inductive event_kind : Type :=
| KCacheGet | KCachePut | KAcquire (granted : bool) | KRelease
| KRunActor | KAI | KUsage | KBalance.

Definition kind_of (e : event) : event_kind :=
  match e with
  | EvCacheGet _ _ => KCacheGet
  | EvCachePut _ _ => KCachePut
  | EvAcquire _ _ g => KAcquire g
  | EvRelease _ => KRelease
  | EvRunActor _ _ => KRunActor
  | EvAI => KAI
  | EvUsage _ _ _ => KUsage
  | EvBalance _ => KBalance
  end.

Definition is_sem_event (e : event) : bool :=
  match e with EvAcquire _ _ _ | EvRelease _ => true | _ => false end.

Definition is_cache_put (e : event) : bool :=
  match e with EvCachePut _ _ => true | _ => false end.

(** The holder identity a handler uses: [this.props?.userId] on the
    OAuth path, the authenticated key's user on the API-key path. *)
Definition request_user (pa : path) (d : deps) : option string :=
  match pa with
  | OAuthPath => d_user d
  | ApiKeyPath u => Some u
  end.

(** The checks before the cache lookup pass: a non-empty user id and a
    valid URL (OAuth), a valid URL and a sufficient balance (API key). *)
Definition passes_gates (pa : path) (d : deps) (p : tool_params) : bool :=
  facebookUrlPattern_test (facebook_page_url p) &&
  match pa with
  | OAuthPath =>
      match d_user d with Some u => negb (String.eqb u EmptyString) | None => false end
  | ApiKeyPath _ => d_balance_ok d
  end.

Definition gate_events (pa : path) (u : string) : list event :=
  match pa with OAuthPath => [] | ApiKeyPath _ => [EvBalance u] end.

Definition is_success (r : tool_result + string) : bool :=
  match r with inl (Success _) => true | _ => false end.

(** ** Admission controller under many callers

    Calls on the single global instance are linearised: a run of the
    controller is a sequence of its operations. *)

Inductive sem_op : Type :=
| OpAcquire (userId actorId : string) (at_time : Z)
| OpRelease (userId : string)
| OpCleanup (maxAge now : Z).

Definition sem_step (cfg : sem_config) (o : sem_op) (sl : list slot) : list slot :=
  match o with
  | OpAcquire u a t => snd (acquireSlot cfg sl t u a)
  | OpRelease u => releaseSlot u sl
  | OpCleanup maxAge t => cleanupStale maxAge t sl
  end.

(** Occupancy after each operation. *)
Fixpoint occupancies (cfg : sem_config) (ops : list sem_op) (sl : list slot) : list nat :=
  match ops with
  | [] => []
  | o :: ops' =>
      let sl' := sem_step cfg o sl in length sl' :: occupancies cfg ops' sl'
  end.

(** Answers to a burst of acquires [(holder, operation)] arriving
    together, in the order the controller serves them. *)
Fixpoint acquire_all (cfg : sem_config) (sl : list slot) (t : Z)
    (callers : list (string * string)) : list SemaphoreSlot :=
  match callers with
  | [] => []
  | (u, a) :: rest =>
      let (r, sl') := acquireSlot cfg sl t u a in r :: acquire_all cfg sl' t rest
  end.

Definition count_granted (rs : list SemaphoreSlot) : nat :=
  length (filter acquired rs).

Definition count_denied (rs : list SemaphoreSlot) : nat :=
  length (filter (fun r => negb (acquired r)) rs).

(** ** [checkActivityPulse]: the scraper's first [totalCount] *)


(** ** Concrete requests *)

Definition demo_deps : deps := {|
  d_digest := fun s => s;
  d_user := Some "u1";
  d_cache_get_ok := true;
  d_cache_put_ok := true;
  d_sem_ok := true;
  d_run := RunOk (Some [JObj [("pageName", JStr "Nike"); ("totalCount", JNum 7)]]);
  d_ai := AiFailed;
  d_usage_ok := true;
  d_balance_ok := true;
  d_current_balance := 0;
  d_secure := fun j => Some j;
  d_format_insufficient := fun name balance cost =>
    "Insufficient tokens for " ++ name ++ ": " ++ show_Z cost ++ " needed, " ++
    show_Z balance ++ " available"
|}.

Definition demo_params : tool_params :=
  {| facebook_page_url := "https://www.facebook.com/Nike"; limit_param := None |}.

Definition other_slot (n : nat) : slot :=
  {| holder := "other" ++ show_Z (Z.of_nat n); acquiredAt := 0; slotActor := ACTOR_ID |}.

(** The controller is saturated: 32 slots held by other requests. *)
Definition saturated_world : world :=
  {| now := 100; kv := []; slots := map other_slot (seq 0 32); trace := [] |}.


(** The state after a step that only appended [evs] to the trace. *)
Definition extend (s : st) (evs : list event) : st :=
  {| st_w := {| now := now (st_w s); kv := kv (st_w s); slots := slots (st_w s);
                trace := (trace (st_w s) ++ evs)%list |};
     st_user := st_user s; st_slot := st_slot s |}.


(** The same collaborators with the cache's reads working. *)
Definition cache_reads_up (d : deps) : deps := {|
  d_digest := d_digest d;
  d_user := d_user d;
  d_cache_get_ok := true;
  d_cache_put_ok := d_cache_put_ok d;
  d_sem_ok := d_sem_ok d;
  d_run := d_run d;
  d_ai := d_ai d;
  d_usage_ok := d_usage_ok d;
  d_balance_ok := d_balance_ok d;
  d_current_balance := d_current_balance d;
  d_secure := d_secure d;
  d_format_insufficient := d_format_insufficient d
|}.


Definition empty_world : world := {| now := 100; kv := []; slots := []; trace := [] |}.

Definition cached_payload : json := JObj [("is_active", JBool true); ("total_ads", JNum 7)].

(** A world whose cache holds a fresh result for the pulse of [demo_params]. *)
Definition hit_world : world :=
  {| now := 100;
     kv := setCachedApifyResult true [] 0 ACTOR_ID
             (fp demo_deps CheckActivityPulse demo_params) cached_payload CACHE_TTL;
     slots := []; trace := [] |}.

(** [demo_deps] with the usage ledger ([logToolUsage]) failing. *)
Definition ledger_down_deps : deps := {|
  d_digest := d_digest demo_deps;
  d_user := d_user demo_deps;
  d_cache_get_ok := true;
  d_cache_put_ok := true;
  d_sem_ok := true;
  d_run := d_run demo_deps;
  d_ai := AiFailed;
  d_usage_ok := false;
  d_balance_ok := true;
  d_secure := d_secure demo_deps; d_current_balance := d_current_balance demo_deps;
  d_format_insufficient := d_format_insufficient demo_deps
|}.

(** [demo_deps] with the scraper run timing out. *)
Definition run_timeout_deps : deps := {|
  d_digest := d_digest demo_deps;
  d_user := d_user demo_deps;
  d_cache_get_ok := true;
  d_cache_put_ok := true;
  d_sem_ok := true;
  d_run := RunFail "Actor run timed out";
  d_ai := AiFailed;
  d_usage_ok := true;
  d_balance_ok := true;
  d_secure := d_secure demo_deps; d_current_balance := d_current_balance demo_deps;
  d_format_insufficient := d_format_insufficient demo_deps
|}.

(** [demo_deps] with the KV namespace unreachable on reads. *)
Definition cache_down_deps : deps := {|
  d_digest := d_digest demo_deps;
  d_user := d_user demo_deps;
  d_cache_get_ok := false;
  d_cache_put_ok := true;
  d_sem_ok := true;
  d_run := d_run demo_deps;
  d_ai := AiFailed;
  d_usage_ok := true;
  d_balance_ok := true;
  d_secure := d_secure demo_deps; d_current_balance := d_current_balance demo_deps;
  d_format_insufficient := d_format_insufficient demo_deps
|}.

(** A URL whose path ends in U+2028 LINE SEPARATOR. *)
Definition line_separator_url_params : tool_params :=
  {| facebook_page_url := "https://facebook.com/a" ++ bytes [226; 128; 168];
     limit_param := None |}.

Definition bad_url_params : tool_params :=
  {| facebook_page_url := "https://evil.example/facebook.com/Nike"; limit_param := None |}.

(** 33 requests for a slot at once. *)
Definition burst_callers : list (string * string) :=
  map (fun n => ("user" ++ show_Z (Z.of_nat n), ACTOR_ID)) (seq 0 33).

Definition demo_input : json := JObj [("resultsLimit", JNum 10); ("onlyTotal", JBool false)].
Definition demo_input_reordered : json :=
  JObj [("onlyTotal", JBool false); ("resultsLimit", JNum 10)].

(** ** The HTTP entry points ([src/index.ts], [src/api-key-handler.ts])

    A response is a JSON body with its status ([jsonError],
    [jsonRpcResponse]), the event stream of [handleSSETransport], or the
    answer of [oauthProvider.fetch], which is out of scope. *)

Inductive response : Type :=
| RJson (status : Z) (body : json)
| RSse
| ROAuth.

(** [jsonError(message, status)] *)
Definition jsonError (message : string) (status : Z) : response :=
  RJson status (JObj [("error", JStr message); ("status", JNum status)]).

(** [jsonRpcResponse(id, result = null, error = null)]: [{jsonrpc, id}]
    then [error] when it is given, [result] otherwise; an [undefined] id
    is left out by [JSON.stringify]. *)
Definition jsonRpcResponse (id : option json) (result : json) (error : option (Z * string))
  : response :=
  RJson 200 (obj_opt ([("jsonrpc", Some (JStr "2.0")); ("id", id)] ++
    match error with
    | Some (code, message) =>
        [("error", Some (JObj [("code", JNum code); ("message", JStr message)]))]
    | None => [("result", Some result)]
    end)).

(** [v === s] for a string literal [s]. *)
Definition is_str (o : option json) (s : string) : bool :=
  match o with Some (JStr s') => String.eqb s' s | _ => false end.

(** [v.k] on the value [request.json()] returned: reading a field of
    [null] throws a [TypeError]; numbers, strings, booleans and arrays have
    none of the fields read here. *)
Definition js_prop (j : json) (k : string) : option json + string :=
  match j with
  | JNull => inr ("Cannot read properties of null (reading '" ++ k ++ "')")
  | _ => inl (get_field k j)
  end.

(** [handleInitialize] *)
Definition handleInitialize (id : option json) : response :=
  jsonRpcResponse id
    (JObj [("protocolVersion", JStr "2024-11-05");
           ("capabilities", JObj [("tools", JObj [])]);
           ("serverInfo", JObj [("name", JStr "Facebook Ads MCP Server");
                                ("version", JStr "1.0.0")])])
    None.

(** [handlePing] *)
Definition handlePing (id : option json) : response := jsonRpcResponse id (JObj []) None.

(** The [tools] array of [handleToolsList]. *)
Definition tools_list : list json := [
  JObj [("name", JStr "analyzeCompetitorStrategy");
        ("description", JStr "Analyze competitor Facebook ad creative strategy to identify format preferences and effective marketing hooks. Returns format statistics (video vs image percentage) and AI-synthesized marketing angles. Use this when you need to understand how a competitor structures their ad campaigns and what messaging resonates. ⚠️ This tool costs 5 tokens per use.");
        ("inputSchema",
         JObj [("type", JStr "object");
               ("properties",
                JObj [("facebook_page_url", JObj [("type", JStr "string");
                                  ("description", JStr "Facebook Page URL to analyze (e.g., 'https://www.facebook.com/Nike'). Must be a valid Facebook Page URL. Required.")]);
                ("max_ads_to_analyze", JObj [("type", JStr "number");
                                  ("description", JStr "Number of active ads to analyze (1-50). Default: 10. Higher values provide broader strategy insights but increase processing time.")])]);
               ("required", JArr [JStr "facebook_page_url"])])];
  JObj [("name", JStr "fetchCreativeGallery");
        ("description", JStr "Fetch direct URLs to ad images and video thumbnails for visual inspiration. Returns curated list of creative assets with metadata. Use this when you need visual examples of a competitor's ad creatives. ⚠️ This tool costs 3 tokens per use.");
        ("inputSchema",
         JObj [("type", JStr "object");
               ("properties",
                JObj [("facebook_page_url", JObj [("type", JStr "string");
                                  ("description", JStr "Facebook Page URL to fetch creatives from (e.g., 'https://www.facebook.com/Nike'). Must be a valid Facebook Page URL. Required.")]);
                ("limit", JObj [("type", JStr "number");
                                  ("description", JStr "Number of creative assets to return (1-30). Default: 10. Controls gallery size and response context.")])]);
               ("required", JArr [JStr "facebook_page_url"])])];
  JObj [("name", JStr "checkActivityPulse");
        ("description", JStr "Quick check to see if a brand is currently running Facebook ads and how many. Returns activity status and total ad count. Use this for initial reconnaissance before deeper analysis. ⚠️ This tool costs 1 token per use.");
        ("inputSchema",
         JObj [("type", JStr "object");
               ("properties",
                JObj [("facebook_page_url", JObj [("type", JStr "string");
                                  ("description", JStr "Facebook Page URL to check activity for (e.g., 'https://www.facebook.com/Nike'). Must be a valid Facebook Page URL. Required.")])]);
               ("required", JArr [JStr "facebook_page_url"])])]].

(** [handleToolsList] *)
Definition handleToolsList (id : option json) : response :=
  jsonRpcResponse id (JObj [("tools", JArr tools_list)]) None.

(** The [switch (toolName)] of [handleToolsCall]. *)
Definition tool_of_name (name : option json) : option tool :=
  if is_str name "analyzeCompetitorStrategy" then Some AnalyzeCompetitorStrategy
  else if is_str name "fetchCreativeGallery" then Some FetchCreativeGallery
  else if is_str name "checkActivityPulse" then Some CheckActivityPulse
  else None.

Section Transport.

(** What the tool executors act on (ledger, cache, semaphore). *)
Variable W : Type.

(** [execute<Tool>Tool(args, env, userId)]: its result, or the message of
    the error it throws. *)
Variable execute : string -> tool -> json -> W -> (json + string) * W.

(** [handleToolsCall(server, request, env, userId, userEmail)]; [inr] is
    the [TypeError] of the [console.log] template [`${toolName}`], which is
    outside the [try] and reaches [handleHTTPTransport]'s [catch]. *)
Definition handleToolsCall (userId : string) (req : json) (w : W) : (response * W) + string :=
  let id := get_field "id" req in
  let params := get_field "params" req in
  let name := opt_bind params (get_field "name") in
  if negb (truthy params) || negb (truthy name) then
    inl (jsonRpcResponse id JNull (Some (-32602, "Invalid params: name is required")), w)
  else
    match js_template name with
    | None => inr TO_PRIMITIVE_ERROR
    | Some toolName =>
        let toolArgs := js_or (opt_bind params (get_field "arguments")) (JObj []) in
        match tool_of_name name with
        | None => inl (jsonRpcResponse id JNull (Some (-32601, "Unknown tool: " ++ toolName)), w)
        | Some t =>
            let (r, w') := execute userId t toolArgs w in
            match r with
            | inl result => inl (jsonRpcResponse id result None, w')
            | inr msg =>
                inl (jsonRpcResponse id JNull (Some (-32603, "Tool execution error: " ++ msg)), w')
            end
        end
    end.

(** [handleHTTPTransport(server, request, env, userId, userEmail)];
    [body] is what [request.json()] returns, or the message it throws.
    The [console.log] of [`${method}`] and [`${id}`] comes first. *)
Definition handleHTTPTransport (userId : string) (body : json + string) (w : W) : response * W :=
  let parse_error msg :=
    (jsonRpcResponse (Some (JStr "error")) JNull (Some (-32700, "Parse error: " ++ msg)), w) in
  match body with
  | inr msg => parse_error msg
  | inl req =>
      match js_prop req "method" with
      | inr msg => parse_error msg
      | inl method =>
          let id := get_field "id" req in
          match js_template method, js_template id with
          | Some methodStr, Some _ =>
              if negb (is_str (get_field "jsonrpc" req) "2.0") then
                (jsonRpcResponse id JNull (Some (-32600, "Invalid Request: jsonrpc must be '2.0'")), w)
              else if is_str method "initialize" then (handleInitialize id, w)
              else if is_str method "ping" then (handlePing id, w)
              else if is_str method "tools/list" then (handleToolsList id, w)
              else if is_str method "tools/call" then
                match handleToolsCall userId req w with
                | inl rw => rw
                | inr msg => parse_error msg
                end
              else (jsonRpcResponse id JNull (Some (-32601, "Method not found: " ++ methodStr)), w)
          | _, _ => parse_error TO_PRIMITIVE_ERROR
          end
      end
  end.

End Transport.

(** ** The per-user server cache: [LRUCache<string, McpServer>]

    The [Map] as an association list in insertion order, each entry with
    its [lastAccessed] time ([Date.now()] at the call). *)

Section LRU.

Variable V : Type.

Definition lru := list (string * (V * Z)).

Fixpoint lru_lookup (k : string) (c : lru) : option (V * Z) :=
  match c with
  | [] => None
  | (k', e) :: c' => if String.eqb k' k then Some e else lru_lookup k c'
  end.

(** [this.cache.has(key)] *)
Definition lru_has (k : string) (c : lru) : bool :=
  match lru_lookup k c with Some _ => true | None => false end.

(** [entry.lastAccessed = now] *)
Fixpoint lru_touch (k : string) (now : Z) (c : lru) : lru :=
  match c with
  | [] => []
  | (k', (v, t)) :: c' =>
      if String.eqb k' k then (k', (v, now)) :: c' else (k', (v, t)) :: lru_touch k now c'
  end.

(** [get(key)] at time [now] *)
Definition lru_get (k : string) (now : Z) (c : lru) : option V * lru :=
  match lru_lookup k c with
  | Some (v, _) => (Some v, lru_touch k now c)
  | None => (None, c)
  end.

(** [this.cache.set(key, entry)]: a present key keeps its position. *)
Fixpoint lru_put (k : string) (v : V) (now : Z) (c : lru) : lru :=
  match c with
  | [] => [(k, (v, now))]
  | (k', e) :: c' => if String.eqb k' k then (k, (v, now)) :: c' else (k', e) :: lru_put k v now c'
  end.

(** The loop of [evictLRU]: [oldestTime = None] is [Infinity]. *)
Fixpoint lru_oldest (c : lru) (oldestKey : option string) (oldestTime : option Z)
  : option string :=
  match c with
  | [] => oldestKey
  | (k, (_, t)) :: c' =>
      if match oldestTime with None => true | Some o => t <? o end
      then lru_oldest c' (Some k) (Some t)
      else lru_oldest c' oldestKey oldestTime
  end.

(** [this.cache.delete(key)] *)
Fixpoint lru_delete (k : string) (c : lru) : lru :=
  match c with
  | [] => []
  | (k', e) :: c' => if String.eqb k' k then c' else (k', e) :: lru_delete k c'
  end.

(** [evictLRU()] *)
Definition evictLRU (c : lru) : lru :=
  match lru_oldest c None None with
  | Some k => lru_delete k c
  | None => c
  end.

(** [set(key, value)] at time [now] *)
Definition lru_set (maxSize : Z) (k : string) (v : V) (now : Z) (c : lru) : lru :=
  let c1 := if (Z.of_nat (length c) >=? maxSize) && negb (lru_has k c) then evictLRU c else c in
  lru_put k v now c1.

End LRU.

Arguments lru_lookup {V}. Arguments lru_has {V}. Arguments lru_touch {V}.
Arguments lru_get {V}. Arguments lru_put {V}. Arguments lru_oldest {V}.
Arguments lru_delete {V}. Arguments evictLRU {V}. Arguments lru_set {V}.

(** An [McpServer] built by [getOrCreateServer]: its name and version, the
    names of the tools it registers and the [userId] their handlers
    capture. *)
Record McpServer : Type := {
  srv_name : string;
  srv_version : string;
  srv_tools : list string;
  srv_user : string
}.

Definition MAX_CACHED_SERVERS : Z := 1000.

Definition new_server (userId : string) : McpServer := {|
  srv_name := "Facebook Ads MCP Server (API Key)";
  srv_version := "1.0.0";
  srv_tools := ["analyzeCompetitorStrategy"; "fetchCreativeGallery"; "checkActivityPulse"];
  srv_user := userId
|}.

(** [getOrCreateServer(env, userId, email)] on [serverCache]; [tget] and
    [tset] are the clock at its [get] and at its [set]. *)
Definition getOrCreateServer (userId : string) (tget tset : Z) (c : lru McpServer)
  : McpServer * lru McpServer :=
  let (cached, c1) := lru_get userId tget c in
  match cached with
  | Some s => (s, c1)
  | None =>
      let s := new_server userId in
      (s, lru_set MAX_CACHED_SERVERS userId s tset c1)
  end.

(** [authHeader.replace("Bearer ", "")]: the first occurrence only. *)
Fixpoint js_replace_first (pat rep s : string) : string :=
  match strip_prefix pat s with
  | Some rest => rep ++ rest
  | None =>
      match s with
      | EmptyString => EmptyString
      | String c s' => String c (js_replace_first pat rep s')
      end
  end.

(** [s.startsWith(p)] *)
Definition startsWith (s p : string) : bool :=
  match strip_prefix p s with Some _ => true | None => false end.

(** [isApiKeyRequest(pathname, authHeader)]; a missing header is [None]. *)
Definition isApiKeyRequest (pathname : string) (authHeader : option string) : bool :=
  if negb (String.eqb pathname "/mcp") then false else
  match authHeader with
  | None => false
  | Some h =>
      if String.eqb h EmptyString then false
      else startsWith (js_replace_first "Bearer " "" h) "wtyk_"
  end.

(** [validateApiKey] and [getUserById] ([./apiKeys], [./tokenUtils]): an
    answer, or the message of the error they throw.  The user is given by
    its email, the one field the handler reads. *)
Record auth_deps : Type := {
  validateApiKey : string -> option string + string;
  getUserById : string -> option string + string
}.

Section ApiKey.

Variable W : Type.
Variable execute : string -> tool -> json -> W -> (json + string) * W.

(** [handleApiKeyRequest(request, env, ctx, pathname)]; [pathname] is
    [None] when the caller leaves the argument out, and [authHeader] is
    what [request.headers.get("Authorization")] returns: the header value
    with its leading and trailing white space removed by Fetch. *)
Definition handleApiKeyRequest (ad : auth_deps) (pathname : option string)
    (authHeader : option string) (body : json + string) (tget tset : Z)
    (c : lru McpServer) (w : W) : response * lru McpServer * W :=
  let internal e := (jsonError ("Internal server error: " ++ e) 500, c, w) in
  let missing := (jsonError "Missing Authorization header" 401, c, w) in
  let invalid := (jsonError "Invalid or expired API key" 401, c, w) in
  match option_map (js_replace_first "Bearer " "") authHeader with
  | None => missing
  | Some apiKey =>
      if String.eqb apiKey EmptyString then missing else
      match validateApiKey ad apiKey with
      | inr e => internal e
      | inl None => invalid
      | inl (Some userId) =>
          if String.eqb userId EmptyString then invalid else
          match getUserById ad userId with
          | inr e => internal e
          | inl None => (jsonError "User not found or account deleted" 404, c, w)
          | inl (Some _) =>
              let (server, c') := getOrCreateServer userId tget tset c in
              match pathname with
              | Some pn =>
                  if String.eqb pn "/sse" then (RSse, c', w)
                  else if String.eqb pn "/mcp" then
                    let (r, w') := handleHTTPTransport W execute userId body w in (r, c', w')
                  else (jsonError "Invalid endpoint. Use /sse or /mcp" 400, c', w)
              | None => (jsonError "Invalid endpoint. Use /sse or /mcp" 400, c', w)
              end
          end
      end
  end.

(** The Worker's [fetch(request, env, ctx)]; [url] is the pathname of
    [new URL(request.url)], or the message it throws.  It calls
    [handleApiKeyRequest(request, env, ctx)]: no [pathname]. *)
Definition fetch (ad : auth_deps) (url : string + string) (authHeader : option string)
    (body : json + string) (tget tset : Z) (c : lru McpServer) (w : W)
  : response * lru McpServer * W :=
  match url with
  | inr e =>
      (RJson 500 (JObj [("error", JStr "Internal server error"); ("message", JStr e)]), c, w)
  | inl pathname =>
      if isApiKeyRequest pathname authHeader
      then handleApiKeyRequest ad None authHeader body tget tset c w
      else (ROAuth, c, w)
  end.

End ApiKey.

Arguments handleToolsCall {W}. Arguments handleHTTPTransport {W}.
Arguments handleApiKeyRequest {W}. Arguments fetch {W}.

(** Every cached server is the one built for its key's user. *)
Definition server_bound (c : lru McpServer) : Prop :=
  Forall (fun e => srv_user (fst (snd e)) = fst e) c.

(** ** Further demo values *)



Definition no_user_deps : deps := {|
  d_digest := d_digest demo_deps; d_user := None;
  d_cache_get_ok := true; d_cache_put_ok := true; d_sem_ok := true;
  d_run := d_run demo_deps; d_ai := AiFailed; d_usage_ok := true;
  d_balance_ok := true; d_secure := d_secure demo_deps; d_current_balance := d_current_balance demo_deps;
  d_format_insufficient := d_format_insufficient demo_deps |}.

Definition broke_deps : deps := {|
  d_digest := d_digest demo_deps; d_user := d_user demo_deps;
  d_cache_get_ok := true; d_cache_put_ok := true; d_sem_ok := true;
  d_run := d_run demo_deps; d_ai := AiFailed; d_usage_ok := true;
  d_balance_ok := false; d_secure := d_secure demo_deps; d_current_balance := d_current_balance demo_deps;
  d_format_insufficient := d_format_insufficient demo_deps |}.

Definition sem_down_deps : deps := {|
  d_digest := d_digest demo_deps; d_user := d_user demo_deps;
  d_cache_get_ok := true; d_cache_put_ok := true; d_sem_ok := false;
  d_run := d_run demo_deps; d_ai := AiFailed; d_usage_ok := true;
  d_balance_ok := true; d_secure := d_secure demo_deps; d_current_balance := d_current_balance demo_deps;
  d_format_insufficient := d_format_insufficient demo_deps |}.

Definition secure_fail_deps : deps := {|
  d_digest := d_digest demo_deps; d_user := d_user demo_deps;
  d_cache_get_ok := true; d_cache_put_ok := true; d_sem_ok := true;
  d_run := d_run demo_deps; d_ai := AiFailed; d_usage_ok := true;
  d_balance_ok := true; d_secure := fun _ => None; d_current_balance := d_current_balance demo_deps;
  d_format_insufficient := d_format_insufficient demo_deps |}.

Definition ad_with_text : json :=
  JObj [("snapshot", JObj [("body", JObj [("text", JStr "Just do it")])])].

Definition ai_throw_deps : deps := {|
  d_digest := d_digest demo_deps; d_user := d_user demo_deps;
  d_cache_get_ok := true; d_cache_put_ok := true; d_sem_ok := true;
  d_run := RunOk (Some [ad_with_text]); d_ai := AiThrow "AI Gateway timeout";
  d_usage_ok := true; d_balance_ok := true; d_secure := d_secure demo_deps; d_current_balance := d_current_balance demo_deps;
  d_format_insufficient := d_format_insufficient demo_deps |}.

Definition demo_lru : lru Z := [("a", (10, 1)); ("b", (20, 3)); ("c", (30, 2))].

Definition demo_servers : lru McpServer := [("u2", (new_server "u2", 5))].

Definition demo_auth : auth_deps := {|
  validateApiKey := fun k => if String.eqb k "wtyk_demo" then inl (Some "u1") else inl None;
  getUserById := fun u => if String.eqb u "u1" then inl (Some "u1@example.com") else inl None
|}.

Definition echo_execute (u : string) (t : tool) (args : json) (w : unit) : (json + string) * unit :=
  (inl args, w).

Definition demo_rpc_call : json :=
  JObj [("jsonrpc", JStr "2.0"); ("id", JNum 1); ("method", JStr "tools/call");
        ("params", JObj [("name", JStr "checkActivityPulse");
                         ("arguments", JObj [("facebook_page_url",
                                              JStr "https://www.facebook.com/Nike")])])].

(* ================================================================== *)
(** * Proofs *)
(* ================================================================== *)

(** ** Sorting of object fields *)

Lemma ltb_lt (a b : string) : String.ltb a b = true <-> String_as_OT.lt a b.
Proof.
  unfold String.ltb. rewrite <- String_as_OT.cmp_lt. unfold String_as_OT.cmp.
  destruct (String.compare a b); split; congruence.
Qed.

Lemma lt_irrefl (a : string) : ~ String_as_OT.lt a a.
Proof. intro H. apply (String_as_OT.lt_not_eq a a H). reflexivity. Qed.

Lemma lt_total (a b : string) :
  String.ltb a b = false -> a <> b -> String_as_OT.lt b a.
Proof.
  intros Hf Hne. apply String_as_OT.cmp_lt. unfold String_as_OT.cmp.
  unfold String.ltb in Hf.
  rewrite String.compare_antisym.
  destruct (String.compare a b) eqn:E; try discriminate; simpl; auto.
  apply String.compare_eq_iff in E. contradiction.
Qed.

Lemma insert_field_perm kv fs : Permutation (insert_field kv fs) (kv :: fs).
Proof.
  induction fs as [|kv' fs IH]; simpl; auto.
  destruct (String.ltb (fst kv) (fst kv')); auto.
  eapply perm_trans; [apply perm_skip, IH|apply perm_swap].
Qed.

Lemma sort_fields_perm fs : Permutation (sort_fields fs) fs.
Proof.
  induction fs as [|kv fs IH]; simpl; auto.
  eapply perm_trans; [apply insert_field_perm|auto].
Qed.

Lemma insert_field_sorted kv fs :
  ~ In (fst kv) (map fst fs) ->
  StronglySorted key_lt fs -> StronglySorted key_lt (insert_field kv fs).
Proof.
  induction fs as [|kv' fs IH]; intros Hnin Hs; simpl.
  - repeat constructor.
  - inversion Hs as [|? ? Hs' Hall]; subst.
    destruct (String.ltb (fst kv) (fst kv')) eqn:E.
    + apply ltb_lt in E. constructor; [assumption|].
      constructor; [exact E|].
      eapply Forall_impl; [|exact Hall].
      intros y Hy. eapply String_as_OT.lt_trans; eassumption.
    + assert (Hlt : key_lt kv' kv).
      { apply lt_total; [assumption|]. intro Heq. apply Hnin. simpl; auto. }
      constructor.
      * apply IH; [intro; apply Hnin; simpl; auto|assumption].
      * apply Forall_forall. intros y Hy.
        apply (Permutation_in _ (insert_field_perm kv fs)) in Hy.
        destruct Hy as [<-|Hy]; [assumption|].
        rewrite Forall_forall in Hall. auto.
Qed.

Lemma map_fst_insert kv fs :
  Permutation (map fst (insert_field kv fs)) (fst kv :: map fst fs).
Proof.
  change (fst kv :: map fst fs) with (map fst (kv :: fs)).
  apply Permutation_map, insert_field_perm.
Qed.

Lemma sort_fields_sorted fs :
  NoDup (map fst fs) -> StronglySorted key_lt (sort_fields fs).
Proof.
  induction fs as [|kv fs IH]; intros Hnd; simpl.
  - constructor.
  - inversion Hnd; subst. apply insert_field_sorted.
    + intro Hin. apply (Permutation_in _ (Permutation_map fst (sort_fields_perm fs))) in Hin.
      contradiction.
    + auto.
Qed.

Lemma strongly_sorted_perm_eq (l1 l2 : list (string * json)) :
  StronglySorted key_lt l1 -> StronglySorted key_lt l2 ->
  Permutation l1 l2 -> l1 = l2.
Proof.
  revert l2. induction l1 as [|a l1 IH]; intros l2 H1 H2 Hp.
  - symmetry. apply Permutation_nil, Hp.
  - destruct l2 as [|b l2].
    + apply Permutation_sym, Permutation_nil in Hp. discriminate.
    + inversion H1 as [|? ? H1' A1]; inversion H2 as [|? ? H2' A2]; subst.
      assert (a = b).
      { destruct (Permutation_in a Hp (or_introl eq_refl)) as [|Ha]; [symmetry; assumption|].
        destruct (Permutation_in b (Permutation_sym Hp) (or_introl eq_refl))
          as [|Hb]; [assumption|].
        rewrite Forall_forall in A1, A2.
        exfalso. apply (lt_irrefl (fst a)).
        eapply String_as_OT.lt_trans; [apply A1, Hb|apply A2, Ha]. }
      subst. f_equal. apply IH; auto. eapply Permutation_cons_inv; eassumption.
Qed.

Lemma sort_fields_perm_eq fs gs :
  NoDup (map fst fs) -> Permutation fs gs -> sort_fields fs = sort_fields gs.
Proof.
  intros Hnd Hp.
  assert (Hnd' : NoDup (map fst gs)).
  { eapply Permutation_NoDup; [apply Permutation_map, Hp|exact Hnd]. }
  apply strongly_sorted_perm_eq; try apply sort_fields_sorted; auto.
  eapply perm_trans; [apply sort_fields_perm|].
  eapply perm_trans; [exact Hp|]. apply Permutation_sym, sort_fields_perm.
Qed.

Lemma nodup_keys_NoDup ks : nodup_keys ks = true -> NoDup ks.
Proof.
  induction ks as [|k ks IH]; simpl; intros H; constructor.
  - apply andb_prop in H as [H _]. apply negb_true_iff in H.
    intro Hin. assert (existsb (String.eqb k) ks = true) as E.
    { apply existsb_exists. exists k. split; auto. apply String.eqb_refl. }
    congruence.
  - apply andb_prop in H as [_ H]. auto.
Qed.

(** ** Canonicalisation ignores key order *)

Lemma map_fst_canon_fields (fs : list (string * json)) :
  map fst (map (fun '(k, v) => (k, canon v)) fs) = map fst fs.
Proof. induction fs as [|[k v] fs IH]; simpl; congruence. Qed.

Lemma canon_reorder (j1 j2 : json) :
  reorder j1 j2 -> wf_json j1 = true -> canon j1 = canon j2.
Proof.
  intros R.
  induction R using reorder_mut with
    (P0 := fun xs ys _ => forallb wf_json xs = true -> map canon xs = map canon ys)
    (P1 := fun fs gs _ =>
             forallb (fun '(_, v) => wf_json v) fs = true ->
             map (fun '(k, v) => (k, canon v)) fs = map (fun '(k, v) => (k, canon v)) gs
             /\ map fst fs = map fst gs);
    simpl; intros Hwf; try reflexivity.
  - f_equal. auto.
  - apply andb_prop in Hwf as [Hnd Hall].
    destruct (IHR Hall) as [Heq Hkeys].
    f_equal. rewrite Heq. apply sort_fields_perm_eq.
    + rewrite map_fst_canon_fields, <- Hkeys. apply nodup_keys_NoDup, Hnd.
    + apply Permutation_map, p.
  - apply andb_prop in Hwf as [H1 H2]. f_equal; auto.
  - split; reflexivity.
  - apply andb_prop in Hwf as [H1 H2].
    destruct (IHR0 H2) as [E1 E2]. rewrite (IHR H1), E1, E2. split; reflexivity.
Qed.

(** ** Symbolic execution of the handlers *)

(** Post-processing only appends to the trace (at most the AI Gateway
    call), and its outcome depends only on the AI Gateway and the clock. *)
Ltac no_effect :=
  eexists _, []; split; [auto|]; intros d' [[n' k sl tr] u so] _ Hn; cbn in *; subst n';
  unfold extend; cbn; rewrite app_nil_r; reflexivity.

Lemma tool_result_of_effects d t items n :
  exists r evs, (evs = [] \/ evs = [EvAI]) /\
    forall d' s, d_ai d' = d_ai d -> now (st_w s) = n ->
      tool_result_of d' t items s = (r, extend s evs).
Proof.
  destruct t.
  - unfold tool_result_of, analyze_result, bind, ret, get_w, makeAIGatewayRequest,
      emit, put_w, throw.
    destruct (existsb is_null (raw_ads items)); [no_effect|].
    destruct (filter_opt nonempty_text (map ad_text (raw_ads items))) as [texts|]; [|no_effect].
    destruct (firstn 10 texts) as [|t0 ts]; [no_effect|].
    destruct (negb (forallb printable (t0 :: ts))); [no_effect|].
    destruct (d_ai d) eqn:Eai; eexists _, [EvAI]; (split; [auto|]);
      intros d' [[n' k sl tr] u so] Hai Hn; cbn in *; subst n'; rewrite Hai; cbn;
      unfold extend; reflexivity.
  - unfold tool_result_of, gallery_result, bind, ret, get_w, throw.
    destruct (existsb is_null (raw_ads items)); no_effect.
  - unfold tool_result_of, pulse_result, bind, ret, get_w, throw.
    destruct (pulse_result_at n items) eqn:Ep;
      eexists _, []; (split; [auto|]); intros d' [[n' k sl tr] u so] _ Hn; cbn in *; subst n';
      rewrite Ep; unfold extend; cbn; rewrite app_nil_r; reflexivity.
Qed.


Arguments hashApifyInput : simpl never.
Arguments actorInput : simpl never.
Arguments getCachedApifyResult : simpl never.
Arguments setCachedApifyResult : simpl never.
Arguments tool_result_of : simpl never.

Ltac unfold_handler :=
  unfold run_request, handler, oauth_handler, api_key_handler, try_catch_finally,
    oauth_body, api_body, oauth_miss, api_miss, oauth_finally, api_finally,
    bind, ret, throw, get_w, put_w, get_user, set_user, get_slot, set_slot, emit,
    cache_get, cache_put, sem_acquire, sem_release, runActorSync,
    makeAIGatewayRequest, record_usage, checkBalance, secure_result, acquireSlot.

(** Rewrite with the equations of the branches taken so far. *)
Ltac simp_known :=
  repeat (match goal with H : ?a = ?c |- context [?a] => rewrite H; cbn end).

(** Case analysis on every branch of a handler run; [hook] may replace the
    post-processing step by a more precise description. *)
Ltac split_matches_with hook :=
  repeat (try unfold_handler; cbn in *; simp_known;
          first
          [ hook
          | match goal with
            | |- context [tool_result_of ?d ?t ?i ?s] =>
                let E := fresh "E" in let Hevs := fresh "Hevs" in
                destruct (tool_result_of_effects d t i (now (st_w s))) as (? & ? & Hevs & E);
                rewrite !E by reflexivity; destruct Hevs; subst
            | |- context [match ?x with _ => _ end] =>
                lazymatch type of x with
                | prod _ _ => fail
                | _ => destruct x eqn:?
                end
            end ]); try unfold_handler; cbn in *; simp_known.

Ltac split_matches := split_matches_with fail.



Arguments pulse_result_at : simpl never.

(** ** Lemmas on the admission controller *)

Lemma acquireSlot_length cfg sl t u a :
  length (snd (acquireSlot cfg sl t u a)) =
  if Nat.ltb (length sl) (cfg_max cfg) then S (length sl) else length sl.
Proof.
  unfold acquireSlot; destruct (Nat.ltb (length sl) (cfg_max cfg)); cbn; auto.
  rewrite length_app; cbn; lia.
Qed.

Lemma releaseSlot_length u sl : (length (releaseSlot u sl) <= length sl)%nat.
Proof.
  induction sl as [|x sl IH]; cbn; [lia|].
  destruct (String.eqb (holder x) u); cbn; lia.
Qed.

Lemma sem_step_bound cfg o sl :
  (length sl <= cfg_max cfg)%nat -> (length (sem_step cfg o sl) <= cfg_max cfg)%nat.
Proof.
  intros H; destruct o as [u a t|u|maxAge t]; cbn.
  - rewrite acquireSlot_length.
    destruct (Nat.ltb_spec (length sl) (cfg_max cfg)); lia.
  - pose proof (releaseSlot_length u sl); lia.
  - unfold cleanupStale. pose proof (filter_length_le
      (fun s => t - acquiredAt s <=? maxAge) sl); lia.
Qed.

Lemma occupancies_bound cfg ops sl :
  (length sl <= cfg_max cfg)%nat ->
  Forall (fun n => (n <= cfg_max cfg)%nat) (occupancies cfg ops sl).
Proof.
  revert sl; induction ops as [|o ops IH]; intros sl H; cbn; constructor.
  - apply sem_step_bound; exact H.
  - apply IH, sem_step_bound, H.
Qed.

Lemma acquire_all_counts cfg sl t callers :
  (length sl <= cfg_max cfg)%nat ->
  let rs := acquire_all cfg sl t callers in
  count_granted rs = Nat.min (cfg_max cfg - length sl) (length callers) /\
  count_denied rs = (length callers - Nat.min (cfg_max cfg - length sl) (length callers))%nat /\
  Forall (fun r => maxSlots r = cfg_max cfg /\
                   (acquired r = false -> currentSlots r = cfg_max cfg)) rs.
Proof.
  revert sl; induction callers as [|[u a] rest IH]; intros sl H.
  - cbn. rewrite Nat.min_0_r; repeat split; auto.
  - change (acquire_all cfg sl t ((u, a) :: rest)) with
      (let (r, sl') := acquireSlot cfg sl t u a in r :: acquire_all cfg sl' t rest).
    unfold acquireSlot.
    destruct (Nat.ltb_spec (length sl) (cfg_max cfg)) as [Hlt|Hge].
    + assert (Hl : (length (sl ++ [{| holder := u; acquiredAt := t; slotActor := a |}])
                    <= cfg_max cfg)%nat)
        by (rewrite length_app; cbn; lia).
      destruct (IH _ Hl) as (Hg & Hd & Hf).
      rewrite length_app in Hg, Hd; cbn [length] in Hg, Hd.
      unfold count_granted, count_denied in *; cbn [filter acquired negb length].
      rewrite Hg, Hd. repeat split; try lia.
      constructor; [split; [reflexivity|discriminate]|exact Hf].
    + destruct (IH _ H) as (Hg & Hd & Hf).
      unfold count_granted, count_denied in *; cbn [filter acquired negb length].
      rewrite Hg, Hd. repeat split; try lia.
      constructor; [split; [reflexivity|intros _; cbn; lia]|exact Hf].
Qed.

(** ** Lemmas on the pulse result *)


(** ** The claims *)

(** C1: a request on which the cache misses and the admission controller
    denies the slot ([acquired = false]) still calls [runActorSync]: the
    handlers never test [slot.acquired] before the scraper call.  With 32
    slots held, an [analyzeCompetitorStrategy] request on either path is
    denied a slot, runs the scraper, caches and returns its result, and
    leaves 32 slots occupied while its scraper run was a 33rd one. *)
Theorem C1_denied_slot_still_runs_actor :
  (let (r, w') := run_request OAuthPath APIFY_SEMAPHORE_CONFIG demo_deps
                    AnalyzeCompetitorStrategy demo_params saturated_world in
   map kind_of (trace w') = [KCacheGet; KAcquire false; KRunActor; KCachePut; KUsage] /\
   is_success r = true /\ length (slots w') = 32%nat) /\
  (let (r, w') := run_request (ApiKeyPath "u1") APIFY_SEMAPHORE_CONFIG demo_deps
                    AnalyzeCompetitorStrategy demo_params saturated_world in
   map kind_of (trace w') =
     [KBalance; KCacheGet; KAcquire false; KRunActor; KCachePut; KUsage] /\
   is_success r = true /\ length (slots w') = 32%nat).
Proof. vm_compute. repeat split. Qed.

(** C2 (amended): on a cache hit the handler never calls [acquireSlot]
    (nor the scraper, nor a release, nor a cache write): the slots and the
    cache are unchanged, the only calls are the lookup and the usage
    ledger, and the result is the cached payload unless the ledger call
    fails, in which case it is the caught error. *)
Theorem C2_cache_hit_skips_admission pa cfg d t p w uid c :
  request_user pa d = Some uid ->
  passes_gates pa d p = true ->
  getCachedApifyResult (d_cache_get_ok d) (kv w) (now w) ACTOR_ID (fp d t p) = Some c ->
  truthy (Some c) = true ->
  run_request pa cfg d t p w =
    (inl (if d_usage_ok d then Success c else IsError "Error: usage ledger failed"),
     {| now := now w; kv := kv w; slots := slots w;
        trace := (trace w ++ gate_events pa uid ++
                  [EvCacheGet ACTOR_ID (fp d t p); EvUsage uid (TOOL_NAME t) true])%list |}).
Proof.
  intros Hu Hg Hc Ht. unfold fp in *.
  destruct pa as [|u]; unfold passes_gates in Hg; cbn in Hu.
  - rewrite Hu in Hg. apply andb_true_iff in Hg as [Hurl Hne].
    apply negb_true_iff in Hne.
    destruct t; unfold_handler; split_matches.
    all: try congruence.
    all: rewrite <- ?app_assoc; reflexivity.
  - injection Hu as ->. apply andb_true_iff in Hg as [Hurl Hbal].
    destruct t; unfold_handler; split_matches.
    all: try congruence.
    all: rewrite <- ?app_assoc; reflexivity.
Qed.

Lemma C2_cache_hit_skips_admission_witness :
  run_request OAuthPath APIFY_SEMAPHORE_CONFIG demo_deps CheckActivityPulse demo_params hit_world =
    (inl (Success cached_payload),
     {| now := 100; kv := kv hit_world; slots := [];
        trace := [EvCacheGet ACTOR_ID (fp demo_deps CheckActivityPulse demo_params);
                  EvUsage "u1" "checkActivityPulse" true] |}).
Proof.
  apply (C2_cache_hit_skips_admission OAuthPath APIFY_SEMAPHORE_CONFIG demo_deps
           CheckActivityPulse demo_params hit_world "u1" cached_payload);
    vm_compute; reflexivity.
Defined.

(** C2 as stated fails: on a cache hit whose usage-ledger call fails, the
    handler returns an error, not the cached payload. *)
Lemma C2_cache_hit_ledger_failure :
  getCachedApifyResult true (kv hit_world) (now hit_world) ACTOR_ID
    (fp ledger_down_deps CheckActivityPulse demo_params) = Some cached_payload /\
  fst (run_request OAuthPath APIFY_SEMAPHORE_CONFIG ledger_down_deps CheckActivityPulse
         demo_params hit_world) = inl (IsError "Error: usage ledger failed").
Proof. split; vm_compute; reflexivity. Qed.

(** C3: on every exit of a tool handler (result, caught error, failure of
    any collaborator), a granted slot is released, for the holder it was
    granted to, exactly once; a denied or absent acquisition is never
    released. *)
Theorem C3_release_on_every_exit pa cfg d t p w :
  let (r, w') := run_request pa cfg d t p w in
  exists evs, trace w' = (trace w ++ evs)%list /\
    (filter is_sem_event evs = [] \/
     exists u, filter is_sem_event evs = [EvAcquire u ACTOR_ID true; EvRelease u] \/
               filter is_sem_event evs = [EvAcquire u ACTOR_ID false]).
Proof.
  destruct pa; unfold_handler; split_matches.
  all: rewrite <- ?app_assoc;
       first [ exists []; rewrite app_nil_r; split; [reflexivity|]
             | eexists; split; [reflexivity|] ];
       cbn; auto; right; eexists; cbn; auto.
Qed.

(** C4: when [runActorSync] fails with message [msg], the request leaves
    the cache unchanged and writes nothing to it, and if the scraper was
    called the caller gets the error result ["Error: " ++ msg]. *)
Theorem C4_failed_run_not_cached pa cfg d t p w msg :
  d_run d = RunFail msg ->
  let (r, w') := run_request pa cfg d t p w in
  kv w' = kv w /\
  exists evs, trace w' = (trace w ++ evs)%list /\
    forallb (fun e => negb (is_cache_put e)) evs = true /\
    (In KRunActor (map kind_of evs) -> r = inl (IsError ("Error: " ++ msg))).
Proof.
  intros H; destruct pa; unfold_handler; split_matches.
  all: split; [reflexivity|];
       rewrite <- ?app_assoc;
       first [ exists []; rewrite app_nil_r; split; [reflexivity|]
             | eexists; split; [reflexivity|] ];
       (split; [reflexivity|]);
       intros Hin; first [reflexivity | exfalso; cbn in Hin; intuition discriminate].
Qed.

Lemma C4_failed_run_not_cached_witness :
  let (r, w') := run_request OAuthPath APIFY_SEMAPHORE_CONFIG run_timeout_deps
                   CheckActivityPulse demo_params empty_world in
  kv w' = kv empty_world /\
  exists evs, trace w' = (trace empty_world ++ evs)%list /\
    forallb (fun e => negb (is_cache_put e)) evs = true /\
    (In KRunActor (map kind_of evs) ->
       r = inl (IsError ("Error: " ++ "Actor run timed out"))).
Proof.
  apply (C4_failed_run_not_cached OAuthPath APIFY_SEMAPHORE_CONFIG run_timeout_deps
           CheckActivityPulse demo_params empty_world "Actor run timed out").
  reflexivity.
Defined.

(** C5: the admission controller never has more than [cfg_max] slots
    outstanding over any sequence of calls; of [cfg_max + K] acquires
    arriving together at an empty controller exactly [cfg_max] are granted
    and [K] denied, each denial reporting [currentSlots = maxSlots =
    cfg_max]; and at occupancy [cfg_max - 1] two acquires, served in
    either order, are not both granted. *)
Theorem C5_capacity (cfg : sem_config) :
  (forall ops sl, (length sl <= cfg_max cfg)%nat ->
     Forall (fun n => (n <= cfg_max cfg)%nat) (occupancies cfg ops sl)) /\
  (forall callers K t, length callers = (cfg_max cfg + K)%nat ->
     let rs := acquire_all cfg [] t callers in
     count_granted rs = cfg_max cfg /\ count_denied rs = K /\
     Forall (fun r => acquired r = false ->
                      currentSlots r = cfg_max cfg /\ maxSlots r = cfg_max cfg) rs) /\
  (forall sl t u1 a1 u2 a2, S (length sl) = cfg_max cfg ->
     let (r1, sl1) := acquireSlot cfg sl t u1 a1 in
     let (r2, sl2) := acquireSlot cfg sl1 t u2 a2 in
     acquired r1 && acquired r2 = false /\ length sl2 = cfg_max cfg).
Proof.
  split; [|split].
  - intros ops sl H. apply occupancies_bound, H.
  - intros callers K t Hlen.
    destruct (acquire_all_counts cfg [] t callers) as (Hg & Hd & Hf); [cbn; lia|].
    cbn in Hg, Hd. rewrite Nat.sub_0_r, Hlen in Hg, Hd.
    repeat split.
    + rewrite Hg; lia.
    + rewrite Hd; lia.
    + eapply Forall_impl; [|exact Hf]. intros r [Hm Ha] Hr. split; auto.
  - intros sl t u1 a1 u2 a2 H. unfold acquireSlot.
    destruct (Nat.ltb_spec (length sl) (cfg_max cfg)); [|lia].
    cbv beta iota. rewrite length_app; cbn [length].
    destruct (Nat.ltb_spec (length sl + 1) (cfg_max cfg)); [lia|].
    cbv beta iota; cbn [acquired andb].
    split; [reflexivity|]. rewrite length_app; cbn [length]; lia.
Qed.

Lemma C5_capacity_witness :
  length burst_callers = (cfg_max APIFY_SEMAPHORE_CONFIG + 1)%nat /\
  count_granted (acquire_all APIFY_SEMAPHORE_CONFIG [] 0 burst_callers) = 32%nat /\
  count_denied (acquire_all APIFY_SEMAPHORE_CONFIG [] 0 burst_callers) = 1%nat.
Proof.
  assert (Hlen : length burst_callers = (cfg_max APIFY_SEMAPHORE_CONFIG + 1)%nat)
    by reflexivity.
  destruct (proj1 (proj2 (C5_capacity APIFY_SEMAPHORE_CONFIG)) burst_callers 1%nat 0 Hlen)
    as (Hg & Hd & _).
  split; [exact Hlen|split; [exact Hg|exact Hd]].
Defined.

(** C6: when the cache's reads fail, the request runs exactly as with a
    reachable, empty cache: same result, same admission and scraper calls
    (the whole trace), same slots. *)
Theorem C6_cache_unavailable_is_miss pa cfg d t p w :
  d_cache_get_ok d = false ->
  let (r, w') := run_request pa cfg d t p w in
  let (r0, w0') := run_request pa cfg (cache_reads_up d) t p
                     {| now := now w; kv := []; slots := slots w; trace := trace w |} in
  r = r0 /\ slots w' = slots w0' /\ trace w' = trace w0'.
Proof.
  intros H.
  destruct (d_run d) as [items|msg] eqn:Er.
  - destruct (tool_result_of_effects d t items (now w)) as (r & evs & Hevs & E).
    destruct pa; unfold cache_reads_up; unfold_handler;
      split_matches_with ltac:(rewrite !E by reflexivity).
    all: try (match goal with Hx : getCachedApifyResult _ _ _ _ _ = Some _ |- _ =>
                unfold getCachedApifyResult in Hx; cbn in Hx; discriminate end).
    all: auto.
  - destruct pa; unfold cache_reads_up; unfold_handler; split_matches.
    all: try (match goal with Hx : getCachedApifyResult _ _ _ _ _ = Some _ |- _ =>
                unfold getCachedApifyResult in Hx; cbn in Hx; discriminate end).
    all: auto.
Qed.

Lemma C6_cache_unavailable_is_miss_witness :
  let (r, w') := run_request OAuthPath APIFY_SEMAPHORE_CONFIG cache_down_deps
                   CheckActivityPulse demo_params hit_world in
  let (r0, w0') := run_request OAuthPath APIFY_SEMAPHORE_CONFIG (cache_reads_up cache_down_deps)
                     CheckActivityPulse demo_params
                     {| now := now hit_world; kv := []; slots := slots hit_world;
                        trace := trace hit_world |} in
  r = r0 /\ slots w' = slots w0' /\ trace w' = trace w0'.
Proof.
  apply (C6_cache_unavailable_is_miss OAuthPath APIFY_SEMAPHORE_CONFIG cache_down_deps
           CheckActivityPulse demo_params hit_world).
  reflexivity.
Defined.

(** C7: the fingerprint of [{ actorId, input }] does not depend on the
    order of keys in [input] (at any depth), and a lookup right after a
    store, with the parameters in any key order, returns the stored
    payload. *)
Theorem C7_cache_round_trip digest op params params' payload kv0 t ttl :
  wf_json params = true -> reorder params params' -> 0 < ttl ->
  hashApifyInput digest (apify_key op params') = hashApifyInput digest (apify_key op params) /\
  getCachedApifyResult true
    (setCachedApifyResult true kv0 t op (hashApifyInput digest (apify_key op params)) payload ttl)
    t op (hashApifyInput digest (apify_key op params')) = Some payload.
Proof.
  intros Hwf R Httl.
  assert (Hh : hashApifyInput digest (apify_key op params') =
               hashApifyInput digest (apify_key op params)).
  { unfold hashApifyInput. f_equal. f_equal. symmetry.
    apply canon_reorder.
    - unfold apify_key.
      apply (ro_obj _ [("actorId", JStr op); ("input", params')]); [|apply Permutation_refl].
      repeat constructor. exact R.
    - cbn. rewrite Hwf. reflexivity. }
  split; [exact Hh|].
  rewrite Hh. unfold getCachedApifyResult, setCachedApifyResult, kv_put, kv_find.
  cbn. unfold key_eqb; cbn. rewrite !String.eqb_refl; cbn.
  destruct (Z.ltb_spec t (t + ttl)); [reflexivity|lia].
Qed.

Lemma C7_cache_round_trip_witness :
  hashApifyInput (fun s => s) (apify_key ACTOR_ID demo_input_reordered) =
    hashApifyInput (fun s => s) (apify_key ACTOR_ID demo_input) /\
  getCachedApifyResult true
    (setCachedApifyResult true [] 0 ACTOR_ID
       (hashApifyInput (fun s => s) (apify_key ACTOR_ID demo_input)) cached_payload CACHE_TTL)
    0 ACTOR_ID (hashApifyInput (fun s => s) (apify_key ACTOR_ID demo_input_reordered))
  = Some cached_payload.
Proof.
  apply C7_cache_round_trip.
  - reflexivity.
  - apply (ro_obj _ [("resultsLimit", JNum 10); ("onlyTotal", JBool false)]).
    + repeat constructor.
    + apply perm_swap.
  - unfold CACHE_TTL; lia.
Defined.

(** C8: a lookup made [ttl] seconds or more after a store of that key
    returns nothing (and does not fail), whether the store is reachable
    or not. *)
Theorem C8_expired_entry_absent ok kv0 t0 t op key payload ttl :
  t0 + ttl <= t ->
  getCachedApifyResult ok (setCachedApifyResult true kv0 t0 op key payload ttl) t op key = None.
Proof.
  intros H. unfold getCachedApifyResult, setCachedApifyResult, kv_put, kv_find.
  destruct ok; [|reflexivity].
  cbn. unfold key_eqb; cbn. rewrite !String.eqb_refl; cbn.
  destruct (Z.ltb_spec t (t0 + ttl)); [lia|reflexivity].
Qed.

Lemma C8_expired_entry_absent_witness :
  getCachedApifyResult true
    (setCachedApifyResult true [] 0 ACTOR_ID "fp" cached_payload CACHE_TTL)
    21600 ACTOR_ID "fp" = None.
Proof. apply C8_expired_entry_absent. unfold CACHE_TTL; lia. Defined.

(** C9: a request whose [facebook_page_url] fails the pattern gets an
    error result and leaves the world as it was: no cache lookup or write,
    no [acquireSlot], no scraper call, no ledger or balance call. *)
Theorem C9_invalid_url_no_effects pa cfg d t p w :
  facebookUrlPattern_test (facebook_page_url p) = false ->
  exists msg, run_request pa cfg d t p w = (inl (IsError msg), w).
Proof.
  intros H; destruct w; destruct pa; unfold_handler; split_matches.
  all: eexists; reflexivity.
Qed.

Lemma C9_invalid_url_no_effects_witness :
  facebookUrlPattern_test (facebook_page_url line_separator_url_params) = false /\
  exists msg, run_request (ApiKeyPath "u1") APIFY_SEMAPHORE_CONFIG demo_deps
                FetchCreativeGallery line_separator_url_params saturated_world =
              (inl (IsError msg), saturated_world).
Proof.
  split; [vm_compute; reflexivity|].
  apply C9_invalid_url_no_effects. vm_compute. reflexivity.
Defined.



(* ================================================================== *)
(** * Further properties of the handlers, the HTTP layer and the server cache *)

(** X1: on the OAuth path a request whose user id is absent or empty ends with the tool error [Error: User ID not found] and changes nothing: no cache read, no slot, no scraper run, no event. *)
Theorem X_oauth_requires_user cfg d t p w :
  (d_user d = None \/ d_user d = Some EmptyString) ->
  run_request OAuthPath cfg d t p w = (inl (IsError "Error: User ID not found"), w).
Proof.
  destruct w; intros [H|H]; unfold_handler; split_matches; reflexivity.
Qed.

Lemma X_oauth_requires_user_witness :
  d_user no_user_deps = None /\
  run_request OAuthPath APIFY_SEMAPHORE_CONFIG no_user_deps AnalyzeCompetitorStrategy
    demo_params empty_world = (inl (IsError "Error: User ID not found"), empty_world).
Proof.
  split; [reflexivity|].
  apply X_oauth_requires_user. left; reflexivity.
Defined.

(** X2: on the API-key path, a valid URL with an insufficient balance returns, as a tool error, the message [formatInsufficientTokensError] builds from the tool name, the current balance and the tool's flat cost, after the balance check alone: no cache read, no slot, no scraper run, no charge. *)
Theorem X_insufficient_balance cfg d t p w u :
  facebookUrlPattern_test (facebook_page_url p) = true ->
  d_balance_ok d = false ->
  run_request (ApiKeyPath u) cfg d t p w =
    (inl (IsError (d_format_insufficient d (TOOL_NAME t) (d_current_balance d) (FLAT_COST t))),
     {| now := now w; kv := kv w; slots := slots w; trace := (trace w ++ [EvBalance u])%list |}).
Proof.
  intros Hu Hb; unfold_handler; split_matches; reflexivity.
Qed.

Lemma X_insufficient_balance_witness :
  facebookUrlPattern_test (facebook_page_url demo_params) = true /\
  d_balance_ok broke_deps = false /\
  run_request (ApiKeyPath "u1") APIFY_SEMAPHORE_CONFIG broke_deps AnalyzeCompetitorStrategy
    demo_params empty_world =
    (inl (IsError "Insufficient tokens for analyzeCompetitorStrategy: 5 needed, 0 available"),
     {| now := now empty_world; kv := kv empty_world; slots := slots empty_world;
        trace := (trace empty_world ++ [EvBalance "u1"])%list |}).
Proof.
  split; [vm_compute; reflexivity|]. split; [reflexivity|].
  apply X_insufficient_balance; [vm_compute; reflexivity|reflexivity].
Defined.

(** X3: when the semaphore Durable Object cannot be reached, a request leaves the cache and the slot table as they were, and neither runs the scraper, writes the cache nor releases a slot. *)
Theorem X_semaphore_unreachable pa cfg d t p w :
  d_sem_ok d = false ->
  let (r, w') := run_request pa cfg d t p w in
  kv w' = kv w /\ slots w' = slots w /\
  exists evs, trace w' = (trace w ++ evs)%list /\
    ~ In KRunActor (map kind_of evs) /\ ~ In KCachePut (map kind_of evs) /\
    ~ In KRelease (map kind_of evs).
Proof.
  intros H; destruct pa; unfold_handler; split_matches.
  all: split; [reflexivity|]; split; [reflexivity|];
       rewrite <- ?app_assoc;
       first [ exists []; rewrite app_nil_r; split; [reflexivity|]
             | eexists; split; [reflexivity|] ];
       cbn; intuition discriminate.
Qed.

Lemma X_semaphore_unreachable_witness :
  d_sem_ok sem_down_deps = false /\
  let (r, w') := run_request OAuthPath APIFY_SEMAPHORE_CONFIG sem_down_deps
                   CheckActivityPulse demo_params empty_world in
  kv w' = kv empty_world /\ slots w' = slots empty_world /\
  exists evs, trace w' = (trace empty_world ++ evs)%list /\
    ~ In KRunActor (map kind_of evs) /\ ~ In KCachePut (map kind_of evs) /\
    ~ In KRelease (map kind_of evs).
Proof.
  split; [reflexivity|].
  apply X_semaphore_unreachable. reflexivity.
Defined.

(** X4: on the API-key path, when the security step (sanitise, redact, re-parse) fails on every value, nothing is written to the cache, and a request that ran the scraper ends in a tool error without charging the user. *)
Theorem X_security_step_failure cfg d t p w u :
  (forall j, d_secure d j = None) ->
  let (r, w') := run_request (ApiKeyPath u) cfg d t p w in
  kv w' = kv w /\
  exists evs, trace w' = (trace w ++ evs)%list /\
    (In KRunActor (map kind_of evs) ->
       ~ In KCachePut (map kind_of evs) /\ ~ In KUsage (map kind_of evs) /\
       exists msg, r = inl (IsError msg)).
Proof.
  intros Hs; unfold_handler; split_matches_with ltac:(idtac; rewrite Hs).
  all: split; [reflexivity|];
       rewrite <- ?app_assoc;
       first [ exists []; rewrite app_nil_r; split; [reflexivity|]
             | eexists; split; [reflexivity|] ];
       cbn; intros Hin;
       first [ split; [|split]; [intuition discriminate|intuition discriminate|eexists; reflexivity]
             | exfalso; intuition discriminate ].
Qed.

Lemma X_security_step_failure_witness :
  (forall j, d_secure secure_fail_deps j = None) /\
  let (r, w') := run_request (ApiKeyPath "u1") APIFY_SEMAPHORE_CONFIG secure_fail_deps
                   CheckActivityPulse demo_params empty_world in
  kv w' = kv empty_world /\
  exists evs, trace w' = (trace empty_world ++ evs)%list /\
    (In KRunActor (map kind_of evs) ->
       ~ In KCachePut (map kind_of evs) /\ ~ In KUsage (map kind_of evs) /\
       exists msg, r = inl (IsError msg)).
Proof.
  split; [intros; reflexivity|].
  apply X_security_step_failure. intros; reflexivity.
Defined.

Ltac obj_result := intros H; first [discriminate H | injection H as <- _; reflexivity].

Lemma tool_result_obj d t items s j s' :
  tool_result_of d t items s = (inl j, s') -> truthy (Some j) = true.
Proof.
  destruct t; unfold tool_result_of, analyze_result, gallery_result, pulse_result,
    pulse_result_at, bind, ret, get_w, makeAIGatewayRequest, emit, put_w, throw.
  - destruct (existsb is_null (raw_ads items)); [obj_result|].
    destruct (filter_opt nonempty_text (map ad_text (raw_ads items))) as [texts|]; [|obj_result].
    destruct (firstn 10 texts) as [|t0 ts]; [obj_result|].
    destruct (negb (forallb printable (t0 :: ts))); [obj_result|].
    destruct (d_ai d); obj_result.
  - destruct (existsb is_null (raw_ads items)); obj_result.
  - destruct (js_gt_zero _); obj_result.
Qed.

Lemma tool_result_of_effects_truthy d t items n :
  exists r evs, (evs = [] \/ evs = [EvAI]) /\
    (forall j, r = inl j -> truthy (Some j) = true) /\
    forall d' s, d_ai d' = d_ai d -> now (st_w s) = n ->
      tool_result_of d' t items s = (r, extend s evs).
Proof.
  destruct (tool_result_of_effects d t items n) as (r & evs & Hevs & E).
  exists r, evs. split; [exact Hevs|]. split; [|exact E].
  intros j ->.
  eapply (tool_result_obj d t items
            {| st_w := {| now := n; kv := []; slots := []; trace := [] |};
               st_user := None; st_slot := None |}).
  apply E; reflexivity.
Qed.

Lemma get_set_same kv0 t a k pl ttl :
  0 < ttl ->
  getCachedApifyResult true (setCachedApifyResult true kv0 t a k pl ttl) t a k = Some pl.
Proof.
  intros Httl. unfold getCachedApifyResult, setCachedApifyResult, kv_put, kv_find.
  cbn. unfold key_eqb; cbn. rewrite !String.eqb_refl; cbn.
  destruct (Z.ltb_spec t (t + ttl)); [reflexivity|lia].
Qed.

Lemma actorInput_gallery_analyze p :
  actorInput FetchCreativeGallery p = actorInput AnalyzeCompetitorStrategy p.
Proof. reflexivity. Qed.

(** X6: analyzeCompetitorStrategy and fetchCreativeGallery build the same scraper input and so the same cache key: right after a successful analysis (OAuth path, working cache and ledger), a gallery request for the same page and limit returns the analysis payload from the cache, with only a cache read and a usage record. *)
Theorem X_shared_cache_key cfg d p w :
  d_cache_get_ok d = true -> d_cache_put_ok d = true -> d_usage_ok d = true ->
  fp d AnalyzeCompetitorStrategy p = fp d FetchCreativeGallery p /\
  let (r1, w1) := run_request OAuthPath cfg d AnalyzeCompetitorStrategy p w in
  forall a, r1 = inl (Success a) ->
  let (r2, w2) := run_request OAuthPath cfg d FetchCreativeGallery p w1 in
  r2 = inl (Success a) /\
  exists evs, trace w2 = (trace w1 ++ evs)%list /\ map kind_of evs = [KCacheGet; KUsage].
Proof.
  intros Hg Hp Hu. split; [reflexivity|].
  unfold_handler.
  split_matches_with ltac:(idtac; first
    [ rewrite actorInput_gallery_analyze
    | rewrite get_set_same by (unfold CACHE_TTL; lia)
    | match goal with
      | |- context [tool_result_of ?d ?t ?i ?s] =>
          let E := fresh "E" in let Hevs := fresh "Hevs" in let Ht := fresh "Ht" in
          destruct (tool_result_of_effects_truthy d t i (now (st_w s))) as (? & ? & Hevs & Ht & E);
          rewrite !E by reflexivity; destruct Hevs; subst
      end
    | match goal with
      | Ht : forall j, inl ?x = inl j -> _ |- _ => specialize (Ht x eq_refl)
      | Ht : forall j, ?r = inl j -> _, Er : ?r = inl ?x |- _ => specialize (Ht x Er)
      end ]).
  all: intros a Ha; try discriminate.
  all: injection Ha as <-; split; [reflexivity|].
  all: eexists; split; [rewrite <- !app_assoc; reflexivity|reflexivity].
Qed.

Lemma X_shared_cache_key_witness :
  d_cache_get_ok demo_deps = true /\ d_cache_put_ok demo_deps = true /\
  d_usage_ok demo_deps = true /\
  (fp demo_deps AnalyzeCompetitorStrategy demo_params =
     fp demo_deps FetchCreativeGallery demo_params /\
   let (r1, w1) := run_request OAuthPath APIFY_SEMAPHORE_CONFIG demo_deps
                     AnalyzeCompetitorStrategy demo_params empty_world in
   forall a, r1 = inl (Success a) ->
   let (r2, w2) := run_request OAuthPath APIFY_SEMAPHORE_CONFIG demo_deps
                     FetchCreativeGallery demo_params w1 in
   r2 = inl (Success a) /\
   exists evs, trace w2 = (trace w1 ++ evs)%list /\ map kind_of evs = [KCacheGet; KUsage]).
Proof.
  split; [reflexivity|]. split; [reflexivity|]. split; [reflexivity|].
  apply X_shared_cache_key; reflexivity.
Defined.

(** X7: [resultsLimit: limit || 10]: a limit of 0 or no limit gives the same scraper input, hence the same cache key, as a limit of 10; checkActivityPulse ignores the limit. *)
Theorem X_results_limit_default d t url l :
  fp d t {| facebook_page_url := url; limit_param := Some 0 |} =
    fp d t {| facebook_page_url := url; limit_param := Some 10 |} /\
  fp d t {| facebook_page_url := url; limit_param := None |} =
    fp d t {| facebook_page_url := url; limit_param := Some 10 |} /\
  fp d CheckActivityPulse {| facebook_page_url := url; limit_param := l |} =
    fp d CheckActivityPulse {| facebook_page_url := url; limit_param := None |}.
Proof. unfold fp, actorInput; destruct t; repeat split; reflexivity. Qed.

Lemma analyze_ai_throw d items s msg :
  d_ai d = AiThrow msg ->
  tool_result_of d AnalyzeCompetitorStrategy items s = (inr msg, extend s [EvAI]) \/
  (exists j, tool_result_of d AnalyzeCompetitorStrategy items s = (inl j, s)) \/
  (exists e, tool_result_of d AnalyzeCompetitorStrategy items s = (inr e, s)).
Proof.
  intros H. unfold tool_result_of, analyze_result, bind, ret, get_w,
    makeAIGatewayRequest, emit, put_w, throw.
  destruct (existsb is_null (raw_ads items)); [right; right; eexists; reflexivity|].
  destruct (filter_opt nonempty_text (map ad_text (raw_ads items))) as [texts|];
    [|right; right; eexists; reflexivity].
  destruct (firstn 10 texts) as [|t0 ts]; [right; left; eexists; reflexivity|].
  destruct (negb (forallb printable (t0 :: ts))); [right; right; eexists; reflexivity|].
  left. rewrite H. reflexivity.
Qed.

(** X5: when the AI Gateway call of analyzeCompetitorStrategy throws, a request that reached it writes nothing to the cache, records no usage and returns the tool error [Error: ] followed by the thrown message. *)
Theorem X_ai_failure_not_cached pa cfg d p w msg :
  d_ai d = AiThrow msg ->
  let (r, w') := run_request pa cfg d AnalyzeCompetitorStrategy p w in
  exists evs, trace w' = (trace w ++ evs)%list /\
    (In KAI (map kind_of evs) ->
       kv w' = kv w /\ ~ In KCachePut (map kind_of evs) /\ ~ In KUsage (map kind_of evs) /\
       r = inl (IsError ("Error: " ++ msg))).
Proof.
  intros H; destruct pa; unfold_handler;
  split_matches_with ltac:(idtac; match goal with
    | |- context [tool_result_of ?d AnalyzeCompetitorStrategy ?i ?s] =>
        let E := fresh "E" in
        destruct (analyze_ai_throw d i s msg H) as [E|[[? E]|[? E]]]; rewrite E; unfold extend
    end).
  all: rewrite <- ?app_assoc;
       first [ exists []; rewrite app_nil_r; split; [reflexivity|]
             | eexists; split; [reflexivity|] ];
       cbn; intros Hin;
       first [ split; [reflexivity|split; [|split]];
               [intuition discriminate|intuition discriminate|reflexivity]
             | exfalso; intuition discriminate ].
Qed.

Lemma X_ai_failure_not_cached_witness :
  d_ai ai_throw_deps = AiThrow "AI Gateway timeout" /\
  let (r, w') := run_request OAuthPath APIFY_SEMAPHORE_CONFIG ai_throw_deps
                   AnalyzeCompetitorStrategy demo_params empty_world in
  exists evs, trace w' = (trace empty_world ++ evs)%list /\
    (In KAI (map kind_of evs) ->
       kv w' = kv empty_world /\ ~ In KCachePut (map kind_of evs) /\
       ~ In KUsage (map kind_of evs) /\
       r = inl (IsError ("Error: " ++ "AI Gateway timeout"))).
Proof.
  split; [reflexivity|].
  apply X_ai_failure_not_cached. reflexivity.
Defined.

Lemma creative_url ad :
  truthy (fst (creative_of ad)) = true ->
  get_field "url" (snd (creative_of ad)) = fst (creative_of ad).
Proof.
  unfold creative_of; cbn.
  destruct (truthy (opt_bind (card_of ad) (get_field "video_hd_url"))) eqn:Ev.
  - destruct (opt_bind (card_of ad) (get_field "video_hd_url")); cbn; [reflexivity|discriminate].
  - destruct (opt_bind (card_of ad) (get_field "originalImageUrl")); cbn; [reflexivity|discriminate].
Qed.

(** X10: fetchCreativeGallery fails with the [TypeError] of [ad.snapshot] when an ad is [null], leaving the state as it was; otherwise every creative it returns has a truthy url, total_count is the number of creatives returned, and there are at most as many creatives as ads. *)
Theorem X_gallery_creatives items s :
  (existsb is_null (raw_ads items) = true ->
     gallery_result items s = (inr NULL_SNAPSHOT_ERROR, s)) /\
  (existsb is_null (raw_ads items) = false ->
   exists cs,
    gallery_result items s =
      (inl (JObj [("creatives", JArr cs);
                  ("metadata", JObj [("total_count", JNum (Z.of_nat (length cs)));
                                     ("page_name", page_name_of (raw_ads items));
                                     ("fetch_date", JStr (iso_date (now (st_w s))))])]), s) /\
    Forall (fun c => truthy (get_field "url" c) = true) cs /\
    (length cs <= length (raw_ads items))%nat).
Proof.
  unfold gallery_result. split; intros Hn; rewrite Hn; [reflexivity|].
  eexists; split; [reflexivity|]. split.
  - apply Forall_map. apply Forall_forall. intros c Hc.
    apply filter_In in Hc as [Hc Ht]. apply in_map_iff in Hc as [ad [<- _]].
    rewrite creative_url by exact Ht. exact Ht.
  - rewrite length_map. etransitivity; [apply filter_length_le|]. rewrite length_map. lia.
Qed.












Section LRUProofs.
Local Open Scope list_scope.
Variable V : Type.
Implicit Types c : lru V.

Lemma strip_prefix_app p s : strip_prefix p (p ++ s) = Some s.
Proof. induction p as [|a p IH]; cbn; [reflexivity|]. rewrite Ascii.eqb_refl. exact IH. Qed.

Lemma lru_lookup_put k v t c : lru_lookup k (lru_put k v t c) = Some (v, t).
Proof.
  induction c as [|[k' e] c IH]; cbn.
  - rewrite String.eqb_refl. reflexivity.
  - destruct (String.eqb_spec k' k); cbn.
    + rewrite String.eqb_refl. reflexivity.
    + destruct (String.eqb_spec k' k); [contradiction|exact IH].
Qed.

Lemma lru_put_keys_has k v t c :
  lru_has k c = true -> map fst (lru_put k v t c) = map fst c.
Proof.
  unfold lru_has. induction c as [|[k' e] c IH]; cbn; [discriminate|].
  destruct (String.eqb_spec k' k) as [->|]; cbn; intros H; [reflexivity|].
  f_equal. apply IH. exact H.
Qed.

Lemma lru_put_keys_new k v t c :
  lru_has k c = false -> map fst (lru_put k v t c) = map fst c ++ [k].
Proof.
  unfold lru_has. induction c as [|[k' e] c IH]; cbn; [reflexivity|].
  destruct (String.eqb_spec k' k) as [->|]; cbn; intros H; [discriminate|].
  f_equal. apply IH. exact H.
Qed.

Lemma lru_has_In k c : lru_has k c = true <-> In k (map fst c).
Proof.
  unfold lru_has. induction c as [|[k' e] c IH]; cbn; [split; [discriminate|tauto]|].
  destruct (String.eqb_spec k' k) as [->|Hne]; [tauto|].
  rewrite IH. split; [tauto|]. intros [H|H]; [congruence|exact H].
Qed.

Lemma lru_delete_split k (pre post : lru V) (e : V * Z) :
  ~ In k (map fst pre) -> lru_delete k (pre ++ (k, e) :: post) = pre ++ post.
Proof.
  induction pre as [|[k' e'] pre IH]; cbn; intros Hn.
  - rewrite String.eqb_refl. reflexivity.
  - destruct (String.eqb_spec k' k); [tauto|]. f_equal. apply IH. tauto.
Qed.

Lemma lru_oldest_acc c k0 t0 :
  (Forall (fun e => t0 <= snd (snd e)) c /\ lru_oldest c (Some k0) (Some t0) = Some k0) \/
  (exists pre k v t post, c = pre ++ (k, (v, t)) :: post /\
     lru_oldest c (Some k0) (Some t0) = Some k /\ t < t0 /\
     Forall (fun e => t <= snd (snd e)) c /\ Forall (fun e => t < snd (snd e)) pre).
Proof.
  revert k0 t0. induction c as [|[k [v t]] c IH]; intros k0 t0; cbn.
  - left. split; [constructor|reflexivity].
  - destruct (Z.ltb_spec t t0).
    + right. destruct (IH k t) as [[Hall E]|(pre & k2 & v2 & t2 & post & -> & E & Hlt & Hall & Hpre)].
      * exists [], k, v, t, c. split; [reflexivity|]. split; [exact E|]. split; [lia|].
        split; [constructor; [cbn; lia|exact Hall]|constructor].
      * exists ((k, (v, t)) :: pre), k2, v2, t2, post. split; [reflexivity|].
        split; [exact E|]. split; [lia|].
        split; [constructor; [cbn; lia|exact Hall]|constructor; [cbn; lia|exact Hpre]].
    + destruct (IH k0 t0) as [[Hall E]|(pre & k2 & v2 & t2 & post & -> & E & Hlt & Hall & Hpre)].
      * left. split; [constructor; [cbn; lia|exact Hall]|exact E].
      * right. exists ((k, (v, t)) :: pre), k2, v2, t2, post. split; [reflexivity|].
        split; [exact E|]. split; [lia|].
        split; [constructor; [cbn; lia|exact Hall]|constructor; [cbn; lia|exact Hpre]].
Qed.

Lemma lru_oldest_spec c :
  c <> [] ->
  exists pre k v t post, c = pre ++ (k, (v, t)) :: post /\
    lru_oldest c None None = Some k /\
    Forall (fun e => t <= snd (snd e)) c /\ Forall (fun e => t < snd (snd e)) pre.
Proof.
  destruct c as [|[k [v t]] c]; [congruence|]. intros _. cbn.
  destruct (lru_oldest_acc c k t) as [[Hall E]|(pre & k2 & v2 & t2 & post & -> & E & Hlt & Hall & Hpre)].
  - exists [], k, v, t, c. split; [reflexivity|]. split; [exact E|].
    split; [constructor; [cbn; lia|exact Hall]|constructor].
  - exists ((k, (v, t)) :: pre), k2, v2, t2, post. split; [reflexivity|].
    split; [exact E|].
    split; [constructor; [cbn; lia|exact Hall]|constructor; [cbn; lia|exact Hpre]].
Qed.

Lemma evictLRU_split c :
  NoDup (map fst c) -> c <> [] ->
  exists pre k v t post, c = pre ++ (k, (v, t)) :: post /\ evictLRU c = pre ++ post /\
    Forall (fun e => t <= snd (snd e)) c /\ Forall (fun e => t < snd (snd e)) pre.
Proof.
  intros Hnd Hne. destruct (lru_oldest_spec c Hne) as (pre & k & v & t & post & Ec & E & H1 & H2).
  exists pre, k, v, t, post. split; [exact Ec|]. split; [|split; assumption].
  unfold evictLRU. rewrite E, Ec. apply lru_delete_split.
  rewrite Ec, map_app in Hnd. cbn in Hnd. apply NoDup_remove_2 in Hnd. intros Hin; apply Hnd.
  apply in_or_app; left; exact Hin.
Qed.

Lemma Forall_lru_put (P : string * (V * Z) -> Prop) k v t c :
  Forall P c -> P (k, (v, t)) -> Forall P (lru_put k v t c).
Proof.
  induction c as [|[k' e] c IH]; cbn; intros Hc Hk; [constructor; [exact Hk|constructor]|].
  inversion Hc; subst. destruct (String.eqb k' k); constructor; auto.
Qed.

Lemma Forall_lru_delete (P : string * (V * Z) -> Prop) k c :
  Forall P c -> Forall P (lru_delete k c).
Proof.
  induction c as [|[k' e] c IH]; cbn; intros Hc; [constructor|].
  inversion Hc; subst. destruct (String.eqb k' k); [assumption|constructor; auto].
Qed.

Lemma Forall_evictLRU (P : string * (V * Z) -> Prop) c : Forall P c -> Forall P (evictLRU c).
Proof.
  unfold evictLRU. destruct (lru_oldest c None None); [apply Forall_lru_delete|exact id].
Qed.

Lemma lru_delete_keys k c :
  In k (map fst c) -> NoDup (map fst c) ->
  NoDup (map fst (lru_delete k c)) /\ S (length (lru_delete k c)) = length c /\
  (forall k', In k' (map fst (lru_delete k c)) -> In k' (map fst c)).
Proof.
  induction c as [|[k' e] c IH]; cbn; [tauto|]. intros Hin Hnd.
  inversion Hnd as [|? ? Hn Hnd']; subst.
  destruct (String.eqb_spec k' k) as [->|Hne].
  - split; [exact Hnd'|]. split; [reflexivity|]. intros; tauto.
  - destruct Hin as [Hin|Hin]; [congruence|].
    destruct (IH Hin Hnd') as (A & B & C). cbn. split; [|split; [lia|]].
    + constructor; [|exact A]. intros Hk; apply Hn, C, Hk.
    + intros k'' [H|H]; [left; exact H|right; apply C, H].
Qed.

Lemma lru_oldest_In c ok ot k :
  lru_oldest c ok ot = Some k -> ok = Some k \/ In k (map fst c).
Proof.
  revert ok ot. induction c as [|[k' [v t]] c IH]; intros ok ot; cbn; [tauto|].
  intros E. destruct (match ot with None => true | Some o => t <? o end).
  - destruct (IH _ _ E) as [H|H]; [injection H as ->; right; left; reflexivity|right; right; exact H].
  - destruct (IH _ _ E) as [H|H]; [left; exact H|right; right; exact H].
Qed.

Lemma evictLRU_keys c :
  NoDup (map fst c) -> c <> [] ->
  NoDup (map fst (evictLRU c)) /\ S (length (evictLRU c)) = length c /\
  (forall k', In k' (map fst (evictLRU c)) -> In k' (map fst c)).
Proof.
  intros Hnd Hne. unfold evictLRU.
  destruct (lru_oldest c None None) as [k|] eqn:E.
  - apply lru_delete_keys; [|exact Hnd].
    destruct (lru_oldest_In c None None k E) as [H|H]; [discriminate|exact H].
  - destruct (lru_oldest_spec c Hne) as (? & ? & ? & ? & ? & _ & E' & _). congruence.
Qed.

End LRUProofs.

Section LRUTheorems.
Local Open Scope list_scope.

(** X19: on a cache with distinct keys and at most [maxSize] entries ([maxSize] at least 1), [set] keeps the keys distinct and the size at most [maxSize]. *)
Theorem X_lru_set_bound (V : Type) (maxSize : Z) k (v : V) t (c : lru V) :
  NoDup (map fst c) -> 1 <= maxSize -> Z.of_nat (length c) <= maxSize ->
  NoDup (map fst (lru_set maxSize k v t c)) /\
  Z.of_nat (length (lru_set maxSize k v t c)) <= maxSize.
Proof.
  intros Hnd Hm Hl. unfold lru_set.
  destruct (lru_has k c) eqn:Hh.
  - rewrite andb_false_r. rewrite <- (length_map fst), (lru_put_keys_has _ k v t c Hh), length_map.
    split; [exact Hnd|exact Hl].
  - rewrite andb_true_r.
    assert (Hnew : forall c', NoDup (map fst c') -> lru_has k c' = false ->
              NoDup (map fst (lru_put k v t c')) /\ length (lru_put k v t c') = S (length c')).
    { intros c' Hn' Hh'. rewrite <- (length_map fst (lru_put k v t c')), lru_put_keys_new by exact Hh'.
      rewrite length_app, length_map. cbn. split; [|lia].
      apply NoDup_app; [exact Hn'|repeat constructor; auto|].
      intros x Hx [<-|[]]. apply lru_has_In in Hx. congruence. }
    destruct (Z.geb_spec (Z.of_nat (length c)) maxSize).
    + assert (Hne : c <> []) by (intros ->; cbn in *; lia).
      destruct (evictLRU_keys _ c Hnd Hne) as (A & B & C).
      assert (Hh' : lru_has k (evictLRU c) = false).
      { destruct (lru_has k (evictLRU c)) eqn:E; [|reflexivity].
        apply lru_has_In, C, lru_has_In in E. congruence. }
      destruct (Hnew _ A Hh') as [D F]. split; [exact D|]. lia.
    + destruct (Hnew _ Hnd Hh) as [D F]. split; [exact D|]. lia.
Qed.

Lemma X_lru_set_bound_witness :
  NoDup (map fst demo_lru) /\ 1 <= 3 /\ Z.of_nat (length demo_lru) <= 3 /\
  NoDup (map fst (lru_set 3 "d" 40 4 demo_lru)) /\
  Z.of_nat (length (lru_set 3 "d" 40 4 demo_lru)) <= 3.
Proof.
  assert (Hnd : NoDup (map fst demo_lru)).
  { cbn. repeat constructor; cbn; intuition discriminate. }
  split; [exact Hnd|]. split; [lia|]. split; [cbn; lia|].
  apply X_lru_set_bound; [exact Hnd|lia|cbn; lia].
Defined.

(** X20: a [get] right after [set(k, v)] returns v, whatever the cache held and whatever was evicted. *)
Theorem X_lru_get_after_set (V : Type) (maxSize : Z) k (v : V) t t' (c : lru V) :
  fst (lru_get k t' (lru_set maxSize k v t c)) = Some v.
Proof. unfold lru_get, lru_set. rewrite lru_lookup_put. reflexivity. Qed.

(** X21: on a non-empty cache with distinct keys, [evictLRU] deletes exactly one entry, the first one whose lastAccessed time is minimal, and keeps the others in order. *)
Theorem X_evict_least_recent (V : Type) (c : lru V) :
  NoDup (map fst c) -> c <> [] ->
  exists pre k v t post,
    c = pre ++ (k, (v, t)) :: post /\ evictLRU c = pre ++ post /\
    Forall (fun e => t <= snd (snd e)) c /\ Forall (fun e => t < snd (snd e)) pre.
Proof. apply evictLRU_split. Qed.

End LRUTheorems.

Lemma lru_lookup_key {V} k (c : lru V) e :
  lru_lookup k c = Some e -> In (k, e) c.
Proof.
  induction c as [|[k' e'] c IH]; cbn; [discriminate|].
  destruct (String.eqb_spec k' k) as [->|]; intros H; [injection H as ->; left; reflexivity|].
  right; apply IH, H.
Qed.

Lemma X_evict_least_recent_witness :
  NoDup (map fst demo_lru) /\ demo_lru <> [] /\
  exists pre k v t post,
    demo_lru = (pre ++ (k, (v, t)) :: post)%list /\ evictLRU demo_lru = (pre ++ post)%list /\
    Forall (fun e => t <= snd (snd e)) demo_lru /\ Forall (fun e => t < snd (snd e)) pre.
Proof.
  assert (Hnd : NoDup (map fst demo_lru)).
  { cbn. repeat constructor; cbn; intuition discriminate. }
  split; [exact Hnd|]. split; [discriminate|].
  apply X_evict_least_recent; [exact Hnd|discriminate].
Defined.

Lemma lru_touch_shape {V} (P : string * (V * Z) -> Prop) k t (c : lru V) :
  (forall k' v t1 t2, P (k', (v, t1)) -> P (k', (v, t2))) ->
  Forall P c -> Forall P (lru_touch k t c) /\ map fst (lru_touch k t c) = map fst c.
Proof.
  intros HP. induction c as [|[k' [v t']] c IH]; cbn; intros Hc; [split; constructor|].
  inversion Hc; subst. destruct (String.eqb k' k); cbn.
  - split; [constructor; [eapply HP; eassumption|assumption]|reflexivity].
  - destruct (IH ltac:(assumption)) as [A B]. split; [constructor; assumption|f_equal; exact B].
Qed.

(** X22: if every cached server is the one built for its key's user, [getOrCreateServer] returns a server built for the requesting user and keeps that invariant; on a hit the cache keeps its keys. *)
Theorem X_server_cache_per_user u tget tset (c : lru McpServer) :
  server_bound c ->
  let (s, c') := getOrCreateServer u tget tset c in
  srv_user s = u /\ server_bound c' /\
  (lru_has u c = true -> map fst c' = map fst c).
Proof.
  unfold getOrCreateServer, lru_get, server_bound. intros Hc.
  destruct (lru_lookup u c) as [[s t]|] eqn:E.
  - destruct (lru_touch_shape (fun e : string * (McpServer * Z) => srv_user (fst (snd e)) = fst e) u tget c (fun k' v t1 t2 H => H) Hc) as [A B].
    apply lru_lookup_key in E.
    split; [|split; [exact A|intros _; exact B]].
    unfold server_bound in *.
    rewrite Forall_forall in Hc. exact (Hc _ E).
  - split; [reflexivity|]. split.
    + unfold lru_set. apply Forall_lru_put; [|reflexivity].
      destruct (_ && _); [apply Forall_evictLRU|]; exact Hc.
    + unfold lru_has. rewrite E. discriminate.
Qed.

Lemma X_server_cache_per_user_witness :
  server_bound demo_servers /\
  let (s, c') := getOrCreateServer "u1" 7 8 demo_servers in
  srv_user s = "u1" /\ server_bound c' /\
  (lru_has "u1" demo_servers = true -> map fst c' = map fst demo_servers).
Proof.
  assert (Hb : server_bound demo_servers) by (repeat constructor).
  split; [exact Hb|]. apply X_server_cache_per_user. exact Hb.
Defined.

(** X11: [isApiKeyRequest] only intercepts [/mcp]; there a header [Bearer k] is intercepted exactly when k starts with [wtyk_], and a bare [wtyk_] key is intercepted too. *)
Theorem X_api_key_routing :
  (forall p h, p <> "/mcp" -> isApiKeyRequest p h = false) /\
  (forall k, isApiKeyRequest "/mcp" (Some ("Bearer " ++ k)) = startsWith k "wtyk_") /\
  (forall k, isApiKeyRequest "/mcp" (Some ("wtyk_" ++ k)) = true).
Proof.
  split; [|split].
  - intros p h Hp. unfold isApiKeyRequest.
    destruct (String.eqb_spec p "/mcp"); [contradiction|reflexivity].
  - intros k. reflexivity.
  - intros k. reflexivity.
Qed.

Lemma startsWith_nonempty s p : startsWith s p = true -> p <> EmptyString -> s <> EmptyString.
Proof. intros H Hp ->. destruct p; [contradiction|discriminate]. Qed.

(** X12: every request the Worker routes to the API-key handler is answered with a JSON error of status 400, 401, 404 or 500, whatever the tool executors do, and the executors' state is left unchanged: the API-key path never reaches the MCP transport. *)
Theorem X_fetch_api_key_dead_end (W : Type) ad p h body tget tset c (w : W) :
  isApiKeyRequest p h = true ->
  exists msg status c',
    In status [400; 401; 404; 500] /\
    forall execute, fetch execute ad (inl p) h body tget tset c w = (jsonError msg status, c', w).
Proof.
  intros H. unfold fetch. rewrite H. unfold handleApiKeyRequest.
  destruct (option_map _ h) as [k|]; [|do 3 eexists; split; cycle 1; [intros; reflexivity|cbn; tauto]].
  destruct (String.eqb k EmptyString); [do 3 eexists; split; cycle 1; [intros; reflexivity|cbn; tauto]|].
  destruct (validateApiKey ad k) as [[u|]|e];
    try (do 3 eexists; split; cycle 1; [intros; reflexivity|cbn; tauto]).
  destruct (String.eqb u EmptyString); [do 3 eexists; split; cycle 1; [intros; reflexivity|cbn; tauto]|].
  destruct (getUserById ad u) as [[email|]|e];
    try (do 3 eexists; split; cycle 1; [intros; reflexivity|cbn; tauto]).
  destruct (getOrCreateServer u tget tset c) as [s c'].
  do 3 eexists; split; cycle 1; [intros; reflexivity|cbn; tauto].
Qed.

Lemma X_fetch_api_key_dead_end_witness :
  isApiKeyRequest "/mcp" (Some "Bearer wtyk_demo") = true /\
  exists msg status c',
    In status [400; 401; 404; 500] /\
    forall execute, fetch execute demo_auth (inl "/mcp") (Some "Bearer wtyk_demo")
                      (inl JNull) 7 8 [] tt = (jsonError msg status, c', tt).
Proof.
  split; [reflexivity|].
  apply X_fetch_api_key_dead_end. reflexivity.
Defined.

(** X13: an API-key request with a valid key of an existing user is answered with the 400 error [Invalid endpoint. Use /sse or /mcp], because the Worker leaves out the pathname argument; only the server cache is updated. *)
Theorem X_fetch_authenticated_invalid_endpoint (W : Type) execute ad p hv body tget tset c (w : W)
    u email :
  isApiKeyRequest p (Some hv) = true ->
  validateApiKey ad (js_replace_first "Bearer " "" hv) = inl (Some u) -> u <> EmptyString ->
  getUserById ad u = inl (Some email) ->
  fetch execute ad (inl p) (Some hv) body tget tset c w =
    (jsonError "Invalid endpoint. Use /sse or /mcp" 400, snd (getOrCreateServer u tget tset c), w).
Proof.
  intros H Hv Hu Hg. unfold fetch. rewrite H. unfold handleApiKeyRequest. cbn [option_map].
  assert (Hk : js_replace_first "Bearer " "" hv <> EmptyString).
  { unfold isApiKeyRequest in H.
    destruct (String.eqb p "/mcp"); [|discriminate].
    destruct (String.eqb hv EmptyString); [discriminate|].
    cbn in H. eapply startsWith_nonempty; [exact H|discriminate]. }
  destruct (String.eqb_spec (js_replace_first "Bearer " "" hv) EmptyString); [contradiction|].
  rewrite Hv. destruct (String.eqb_spec u EmptyString); [contradiction|].
  rewrite Hg. destruct (getOrCreateServer u tget tset c). reflexivity.
Qed.

Lemma X_fetch_authenticated_invalid_endpoint_witness :
  isApiKeyRequest "/mcp" (Some "Bearer wtyk_demo") = true /\
  validateApiKey demo_auth (js_replace_first "Bearer " "" "Bearer wtyk_demo") = inl (Some "u1") /\
  getUserById demo_auth "u1" = inl (Some "u1@example.com") /\
  fetch echo_execute demo_auth (inl "/mcp") (Some "Bearer wtyk_demo") (inl JNull) 7 8 [] tt =
    (jsonError "Invalid endpoint. Use /sse or /mcp" 400, snd (getOrCreateServer "u1" 7 8 []), tt).
Proof.
  split; [reflexivity|]. split; [reflexivity|]. split; [reflexivity|].
  apply (X_fetch_authenticated_invalid_endpoint unit echo_execute demo_auth "/mcp"
           "Bearer wtyk_demo" (inl JNull) 7 8 [] tt "u1" "u1@example.com");
    [reflexivity|reflexivity|discriminate|reflexivity].
Defined.

(** X14: [handleApiKeyRequest] answers 401 [Missing Authorization header] to an absent or empty header without validating anything, 401 [Invalid or expired API key] when validation yields no user, and 404 when the user does not exist, leaving the server cache untouched. *)
Theorem X_authentication_errors (W : Type) execute ad pn h body tget tset c (w : W) :
  ((h = None \/ h = Some EmptyString) ->
     handleApiKeyRequest execute ad pn h body tget tset c w =
       (jsonError "Missing Authorization header" 401, c, w)) /\
  (forall hv, h = Some hv -> js_replace_first "Bearer " "" hv <> EmptyString ->
     (validateApiKey ad (js_replace_first "Bearer " "" hv) = inl None \/
      validateApiKey ad (js_replace_first "Bearer " "" hv) = inl (Some EmptyString)) ->
     handleApiKeyRequest execute ad pn h body tget tset c w =
       (jsonError "Invalid or expired API key" 401, c, w)) /\
  (forall hv u, h = Some hv -> js_replace_first "Bearer " "" hv <> EmptyString ->
     validateApiKey ad (js_replace_first "Bearer " "" hv) = inl (Some u) -> u <> EmptyString ->
     getUserById ad u = inl None ->
     handleApiKeyRequest execute ad pn h body tget tset c w =
       (jsonError "User not found or account deleted" 404, c, w)).
Proof.
  unfold handleApiKeyRequest. split; [|split].
  - intros [->| ->]; reflexivity.
  - intros hv -> Hk Hv. cbn [option_map].
    destruct (String.eqb_spec (js_replace_first "Bearer " "" hv) EmptyString); [contradiction|].
    destruct Hv as [Hv|Hv]; rewrite Hv; reflexivity.
  - intros hv u -> Hk Hv Hu Hg. cbn [option_map].
    destruct (String.eqb_spec (js_replace_first "Bearer " "" hv) EmptyString); [contradiction|].
    rewrite Hv. destruct (String.eqb_spec u EmptyString); [contradiction|].
    rewrite Hg. reflexivity.
Qed.

Lemma handleToolsCall_rpc (W : Type) execute u req (w : W) rw :
  handleToolsCall execute u req w = inl rw -> exists id r e, fst rw = jsonRpcResponse id r e.
Proof.
  unfold handleToolsCall.
  repeat match goal with
         | |- context [if ?b then _ else _] => destruct b
         | |- context [match ?x with _ => _ end] =>
             lazymatch x with
             | Some (_, _) => fail
             | _ => destruct x
             end
         end; intros H; try discriminate H; injection H as <-; do 3 eexists; reflexivity.
Qed.

Lemma handleHTTPTransport_rpc (W : Type) execute u body (w : W) :
  exists id r e, fst (handleHTTPTransport execute u body w) = jsonRpcResponse id r e.
Proof.
  unfold handleHTTPTransport, handleInitialize, handlePing, handleToolsList.
  destruct body as [req|msg]; [|do 3 eexists; reflexivity].
  destruct (js_prop req "method") as [m|msg]; [|do 3 eexists; reflexivity].
  repeat match goal with
         | |- context [match handleToolsCall ?e ?u ?r ?w with _ => _ end] =>
             let Et := fresh "Et" in
             destruct (handleToolsCall e u r w) as [rw|msg] eqn:Et;
             [exact (handleToolsCall_rpc _ _ _ _ _ _ Et)|]
         | |- context [if ?b then _ else _] => destruct b
         | |- context [match ?x with _ => _ end] =>
             lazymatch x with
             | Some (_, _) => fail
             | _ => destruct x
             end
         end; do 3 eexists; reflexivity.
Qed.

(** X15: every response of [handleHTTPTransport] is a status-200 JSON-RPC envelope that starts with [jsonrpc: 2.0] and carries exactly one of [result] and [error]. *)
Theorem X_transport_envelope (W : Type) execute u body (w : W) :
  exists fs,
    fst (handleHTTPTransport execute u body w) = RJson 200 (JObj (("jsonrpc", JStr "2.0") :: fs)) /\
    length (filter (fun kv => String.eqb (fst kv) "result" || String.eqb (fst kv) "error") fs) = 1%nat.
Proof.
  destruct (handleHTTPTransport_rpc W execute u body w) as (id & r & e & ->).
  unfold jsonRpcResponse. destruct id, e as [[]|]; eexists; split; reflexivity.
Qed.

(** X16: [handleHTTPTransport] answers with code -32700 and id [error] a body that does not parse, that parses to null, or whose method or id cannot be printed in the first log line (an object with its own [toString] field); otherwise a wrong [jsonrpc] field with -32600 and an unknown method with -32601 naming it as the template prints it; none of them touches the executors' state. *)
Theorem X_transport_errors (W : Type) execute u (w : W) :
  (forall msg, handleHTTPTransport execute u (inr msg) w =
     (jsonRpcResponse (Some (JStr "error")) JNull (Some (-32700, "Parse error: " ++ msg)), w)) /\
  handleHTTPTransport execute u (inl JNull) w =
    (jsonRpcResponse (Some (JStr "error")) JNull
       (Some (-32700, "Parse error: Cannot read properties of null (reading 'method')")), w) /\
  (forall req, req <> JNull ->
     (js_template (get_field "method" req) = None \/ js_template (get_field "id" req) = None) ->
     handleHTTPTransport execute u (inl req) w =
       (jsonRpcResponse (Some (JStr "error")) JNull
          (Some (-32700, "Parse error: " ++ TO_PRIMITIVE_ERROR)), w)) /\
  (forall req m i, req <> JNull ->
     js_template (get_field "method" req) = Some m -> js_template (get_field "id" req) = Some i ->
     is_str (get_field "jsonrpc" req) "2.0" = false ->
     handleHTTPTransport execute u (inl req) w =
       (jsonRpcResponse (get_field "id" req) JNull
          (Some (-32600, "Invalid Request: jsonrpc must be '2.0'")), w)) /\
  (forall req m i, req <> JNull ->
     js_template (get_field "method" req) = Some m -> js_template (get_field "id" req) = Some i ->
     is_str (get_field "jsonrpc" req) "2.0" = true ->
     forallb (fun k => negb (is_str (get_field "method" req) k))
       ["initialize"; "ping"; "tools/list"; "tools/call"] = true ->
     handleHTTPTransport execute u (inl req) w =
       (jsonRpcResponse (get_field "id" req) JNull
          (Some (-32601, "Method not found: " ++ m)), w)).
Proof.
  split; [intros; reflexivity|]. split; [reflexivity|]. split; [|split].
  - intros req Hn Hp. unfold handleHTTPTransport.
    destruct req; try contradiction; cbn [js_prop];
      (destruct Hp as [Hp|Hp]; rewrite Hp;
       [reflexivity|destruct (js_template (get_field "method" _)); reflexivity]).
  - intros req m i Hn Em Ei Hj. unfold handleHTTPTransport.
    destruct req; try contradiction; cbn [js_prop]; rewrite Em, Ei, Hj; reflexivity.
  - intros req m i Hn Em Ei Hj Hm. cbn [forallb] in Hm.
    rewrite !andb_true_iff, !negb_true_iff in Hm.
    destruct Hm as (H1 & H2 & H3 & H4 & _).
    unfold handleHTTPTransport.
    destruct req; try contradiction; cbn [js_prop]; rewrite Em, Ei, Hj, H1, H2, H3, H4;
      reflexivity.
Qed.

Lemma tool_of_name_TOOL_NAME t : tool_of_name (Some (JStr (TOOL_NAME t))) = Some t.
Proof. destruct t; reflexivity. Qed.

Lemma tool_of_name_inv n t : tool_of_name n = Some t -> n = Some (JStr (TOOL_NAME t)).
Proof.
  unfold tool_of_name, is_str.
  destruct n as [[| | |s| |]|]; try discriminate.
  destruct (String.eqb_spec s "analyzeCompetitorStrategy") as [->|];
    [intros H; injection H as <-; reflexivity|].
  destruct (String.eqb_spec s "fetchCreativeGallery") as [->|];
    [intros H; injection H as <-; reflexivity|].
  destruct (String.eqb_spec s "checkActivityPulse") as [->|];
    [intros H; injection H as <-; reflexivity|discriminate].
Qed.

(** X17: [tools/call] (with a printable id) answers -32602 without a params object or a tool name, -32700 when the tool name cannot be printed in its log line (an object with its own [toString] field), -32601 naming the tool for a name that is none of the three tools, and otherwise runs that tool's executor on [arguments || {}], returning its result or -32603 with the thrown message. *)
Theorem X_tools_call_dispatch (W : Type) execute u req (w : W) :
  is_str (get_field "jsonrpc" req) "2.0" = true ->
  is_str (get_field "method" req) "tools/call" = true ->
  printable (get_field "id" req) = true ->
  let id := get_field "id" req in
  let params := get_field "params" req in
  let name := opt_bind params (get_field "name") in
  ((truthy params = false \/ truthy name = false) ->
     handleHTTPTransport execute u (inl req) w =
       (jsonRpcResponse id JNull (Some (-32602, "Invalid params: name is required")), w)) /\
  (truthy name = true -> js_template name = None ->
     handleHTTPTransport execute u (inl req) w =
       (jsonRpcResponse (Some (JStr "error")) JNull
          (Some (-32700, "Parse error: " ++ TO_PRIMITIVE_ERROR)), w)) /\
  (forall toolName, truthy name = true -> js_template name = Some toolName ->
     (forall t, name <> Some (JStr (TOOL_NAME t))) ->
     handleHTTPTransport execute u (inl req) w =
       (jsonRpcResponse id JNull (Some (-32601, "Unknown tool: " ++ toolName)), w)) /\
  (forall t, name = Some (JStr (TOOL_NAME t)) ->
     handleHTTPTransport execute u (inl req) w =
       let (r, w') := execute u t (js_or (opt_bind params (get_field "arguments")) (JObj [])) w in
       (match r with
        | inl result => jsonRpcResponse id result None
        | inr msg => jsonRpcResponse id JNull (Some (-32603, "Tool execution error: " ++ msg))
        end, w')).
Proof.
  intros Hj Hm Hi id params name.
  assert (Em : get_field "method" req = Some (JStr "tools/call")).
  { unfold is_str in Hm. destruct (get_field "method" req) as [[| | |sm| |]|]; try discriminate.
    apply String.eqb_eq in Hm. subst sm. reflexivity. }
  assert (E : handleHTTPTransport execute u (inl req) w =
              match handleToolsCall execute u req w with
              | inl rw => rw
              | inr msg =>
                  (jsonRpcResponse (Some (JStr "error")) JNull
                     (Some (-32700, "Parse error: " ++ msg)), w)
              end).
  { unfold printable in Hi. destruct (js_template (get_field "id" req)) eqn:Ei; [|discriminate].
    unfold handleHTTPTransport.
    destruct req; try (cbn in Em; discriminate); cbn [js_prop]; rewrite Em, Ei, Hj.
    reflexivity. }
  rewrite E. unfold handleToolsCall. fold id params name.
  assert (Hp : truthy name = true -> truthy params = true).
  { unfold name. destruct params as [[]|]; try reflexivity; cbn; discriminate. }
  split; [|split; [|split]].
  - intros [H|H]; rewrite H; [reflexivity|rewrite orb_true_r; reflexivity].
  - intros Ht Hn. rewrite (Hp Ht), Ht, Hn. reflexivity.
  - intros toolName Ht Hs Hn. rewrite (Hp Ht), Ht, Hs. cbn.
    destruct (tool_of_name name) eqn:Et; [|reflexivity].
    apply tool_of_name_inv in Et. exfalso; exact (Hn _ Et).
  - intros t Ht.
    assert (Hp' : truthy params = true) by (apply Hp; rewrite Ht; destruct t; reflexivity).
    rewrite Hp', Ht, tool_of_name_TOOL_NAME.
    replace (truthy (Some (JStr (TOOL_NAME t)))) with true by (destruct t; reflexivity).
    cbn [negb orb js_template js_to_string].
    destruct (execute _ _ _ _) as [[?|?] ?]; reflexivity.
Qed.

Lemma X_tools_call_dispatch_witness :
  is_str (get_field "jsonrpc" demo_rpc_call) "2.0" = true /\
  is_str (get_field "method" demo_rpc_call) "tools/call" = true /\
  printable (get_field "id" demo_rpc_call) = true /\
  handleHTTPTransport echo_execute "u1" (inl demo_rpc_call) tt =
    (jsonRpcResponse (Some (JNum 1))
       (JObj [("facebook_page_url", JStr "https://www.facebook.com/Nike")]) None, tt).
Proof.
  split; [reflexivity|]. split; [reflexivity|]. split; [reflexivity|].
  destruct (X_tools_call_dispatch unit echo_execute "u1" demo_rpc_call tt eq_refl eq_refl eq_refl)
    as (_ & _ & _ & H).
  exact (H CheckActivityPulse eq_refl).
Defined.

(** X18: [tools/list], the switch of [tools/call] and the tools registered by [getOrCreateServer] name the same three tools in the same order; each schema requires facebook_page_url and each description states the tool's flat cost. *)
Theorem X_tools_list_consistent u :
  map (get_field "name") tools_list =
    map (fun t => Some (JStr (TOOL_NAME t)))
      [AnalyzeCompetitorStrategy; FetchCreativeGallery; CheckActivityPulse] /\
  map (fun j => tool_of_name (get_field "name" j)) tools_list =
    [Some AnalyzeCompetitorStrategy; Some FetchCreativeGallery; Some CheckActivityPulse] /\
  srv_tools (new_server u) =
    map TOOL_NAME [AnalyzeCompetitorStrategy; FetchCreativeGallery; CheckActivityPulse] /\
  Forall (fun j => opt_bind (get_field "inputSchema" j) (get_field "required") =
                   Some (JArr [JStr "facebook_page_url"])) tools_list /\
  Forall2 (fun j t =>
      opt_bind (get_field "description" j)
        (fun d => match d with
                  | JStr s => String.index 0 ("costs " ++ show_Z (FLAT_COST t) ++ " token") s
                  | _ => None
                  end) <> None)
    tools_list [AnalyzeCompetitorStrategy; FetchCreativeGallery; CheckActivityPulse].
Proof.
  split; [reflexivity|]. split; [reflexivity|]. split; [reflexivity|]. split.
  - repeat constructor.
  - repeat constructor; vm_compute; discriminate.
Qed.
